(** * DroneVizSafe: the trajectory conflict-detection engine

    A shallow embedding of [drone_deconfliction.py] (the geometry
    kernel, the conflict detector, the validation of the loader, the
    choice of the data file, the test runner and the markers of the
    display) and the properties the specification states about it.

    Number model.  The engine is embedded over exact reals [R]:
    coordinates, times and distances are real numbers, a quotient is a
    value of [xfloat] (NumPy's scalar division by zero does not raise,
    it yields [nan] or an infinity) and Python's
    [max(0.0, min(1.0, q))] brings it back to a finite number.  The
    loops, comparisons and records of the detector are stated in this
    arithmetic.

    What the machine numbers do beyond the reals is embedded apart,
    for the properties that hinge on it: [Binary64] has
    [interpolate_position] on IEEE binary64 floats, every operation
    rounded; [Int64] has [closest_distance_between_segments] on integer
    coordinates, which NumPy holds as int64 arrays whose differences,
    dot products and determinant wrap around modulo 2^64.  Python
    integers beyond 64 bits (NumPy object arrays, on which a division
    by zero raises) are in none of the models. *)

From Stdlib Require Import Floats.
From Stdlib Require Import Reals Lra Lia List Sorted Bool Arith ZArith String.
Import ListNotations.

Open Scope R_scope.

#[local] Set Warnings "-inexact-float".

(** ** Numbers *)

Definition Rltb (a b : R) : bool := if Rlt_dec a b then true else false.
Definition Rleb (a b : R) : bool := if Rle_dec a b then true else false.
Definition Reqb (a b : R) : bool := if Req_dec_T a b then true else false.

(** The result of a float division. *)
Inductive xfloat : Type :=
| Fin (r : R)
| PInf
| NInf
| NaN.

(** [a / b] on NumPy scalars. *)
Definition fdiv (a b : R) : xfloat :=
  if Reqb b 0 then
    if Reqb a 0 then NaN
    else if Rltb 0 a then PInf else NInf
  else Fin (a / b).

(** [a < b] on floats: every comparison with [nan] is false. *)
Definition xltb (a b : xfloat) : bool :=
  match a, b with
  | NaN, _ | _, NaN => false
  | Fin r, Fin s => Rltb r s
  | NInf, NInf => false
  | NInf, _ => true
  | _, NInf => false
  | PInf, _ => false
  | Fin _, PInf => true
  end.

(** Python's two-argument [min(a, b)] and [max(a, b)]: the first
    argument is kept unless the second compares strictly better. *)
Definition py_min (a b : xfloat) : xfloat := if xltb b a then b else a.
Definition py_max (a b : xfloat) : xfloat := if xltb a b then b else a.

(** [max(0.0, min(1.0, q))]. *)
Definition clamp01 (q : xfloat) : R :=
  match py_max (Fin 0) (py_min (Fin 1) q) with
  | Fin r => r
  | _ => 0
  end.

(** ** Geometry kernel *)

(** [Waypoint = Tuple[float, float, float]] *)
Definition Waypoint : Type := (R * R * R)%type.

Definition vsub (p q : Waypoint) : Waypoint :=
  let '(p0, p1, p2) := p in let '(q0, q1, q2) := q in
  (p0 - q0, p1 - q1, p2 - q2).

Definition vadd (p q : Waypoint) : Waypoint :=
  let '(p0, p1, p2) := p in let '(q0, q1, q2) := q in
  (p0 + q0, p1 + q1, p2 + q2).

Definition smul (s : R) (p : Waypoint) : Waypoint :=
  let '(p0, p1, p2) := p in (s * p0, s * p1, s * p2).

Definition dot (p q : Waypoint) : R :=
  let '(p0, p1, p2) := p in let '(q0, q1, q2) := q in
  p0 * q0 + p1 * q1 + p2 * q2.

(** [np.linalg.norm] *)
Definition norm (p : Waypoint) : R := sqrt (dot p p).

(** The literal [1e-10]. *)
Definition eps : R := / 10 ^ 10.

(** On real coordinates; [Int64.closest_distance_between_segments] is
    the same code on int64 coordinates. *)
Definition closest_distance_between_segments (p1 p2 q1 q2 : Waypoint) : R :=
  let u := vsub p2 p1 in
  let v := vsub q2 q1 in
  let w := vsub p1 q1 in
  let a := dot u u in
  let b := dot u v in
  let c := dot v v in
  let d := dot u w in
  let e := dot v w in
  let D := a * c - b * b in
  let '(sc, tc) :=
    if Rltb D eps then
      (Fin 0, if Rltb c b then fdiv d b else fdiv e c)
    else
      (fdiv (b * e - c * d) D, fdiv (a * e - b * d) D) in
  let sc := clamp01 sc in
  let tc := clamp01 tc in
  let dP := vsub (vadd w (smul sc u)) (smul tc v) in
  norm dP.

(** The denominators of the divisions a call of
    [closest_distance_between_segments] performs, in evaluation order:
    the same branches as above, keeping the divisor of each [/]. *)
Definition closest_distance_divisors (p1 p2 q1 q2 : Waypoint) : list R :=
  let u := vsub p2 p1 in
  let v := vsub q2 q1 in
  let a := dot u u in
  let b := dot u v in
  let c := dot v v in
  let D := a * c - b * b in
  if Rltb D eps then
    [if Rltb c b then b else c]
  else
    [D; D].

(** A waypoint dictionary [{x, y, z, time}]. *)
Record WaypointDict : Type := mkWp {
  wp_x : R;
  wp_y : R;
  wp_z : R;
  wp_time : R
}.

Definition position (wp : WaypointDict) : Waypoint :=
  (wp_x wp, wp_y wp, wp_z wp).

(** On real numbers; [Binary64.interpolate_position] is the same code
    on binary64 floats. *)
Definition interpolate_position (wp1 wp2 : WaypointDict) (t : R) : Waypoint :=
  let t1 := wp_time wp1 in
  let t2 := wp_time wp2 in
  if Reqb t1 t2 then (wp_x wp1, wp_y wp1, wp_z wp1)
  else
    let frac := clamp01 (fdiv (t - t1) (t2 - t1)) in
    (wp_x wp1 + frac * (wp_x wp2 - wp_x wp1),
     wp_y wp1 + frac * (wp_y wp2 - wp_y wp1),
     wp_z wp1 + frac * (wp_z wp2 - wp_z wp1)).

(** ** Conflict detector *)

Record TimeWindow : Type := mkTw {
  tw_start : R;
  tw_end : R
}.

(** The primary mission: [{waypoints, time_window}]. *)
Record Mission : Type := mkMission {
  waypoints : list WaypointDict;
  time_window : TimeWindow
}.

(** Another drone's schedule: [{drone_id, waypoints}]; the code reads
    the identifier with [schedule.get("drone_id", "unknown")]. *)
Record Schedule : Type := mkSchedule {
  drone_id : option string;
  sched_waypoints : list WaypointDict
}.

Definition get_drone_id (schedule : Schedule) : string :=
  match drone_id schedule with
  | Some s => s
  | None => "unknown"%string
  end.

(** A conflict dictionary.  A key that a dictionary does not have is
    [None]; [distance] and [location] are in both shapes. *)
Record Conflict : Type := mkConflict {
  c_segment_mission : option (nat * nat);
  c_segment_schedule : option (nat * nat);
  c_time : option R;
  c_distance : R;
  c_location : Waypoint;
  c_time_range : option (R * R);
  c_drone_id : option string;
  c_type : option string
}.

Definition set_drone_id (s : string) (c : Conflict) : Conflict :=
  mkConflict (c_segment_mission c) (c_segment_schedule c) (c_time c)
    (c_distance c) (c_location c) (c_time_range c) (Some s) (c_type c).

Definition set_type (s : string) (c : Conflict) : Conflict :=
  mkConflict (c_segment_mission c) (c_segment_schedule c) (c_time c)
    (c_distance c) (c_location c) (c_time_range c) (c_drone_id c) (Some s).

(** [min(...)] and [max(...)] of a generator: an empty one raises
    [ValueError]. *)
Definition py_min_of (l : list R) : option R :=
  match l with
  | [] => None
  | a :: l' => Some (fold_left (fun m r => if Rltb r m then r else m) l' a)
  end.

Definition py_max_of (l : list R) : option R :=
  match l with
  | [] => None
  | a :: l' => Some (fold_left (fun m r => if Rltb m r then r else m) l' a)
  end.

(** [range(len(waypoints) - 1)] *)
Definition segment_indices (wps : list WaypointDict) : list nat :=
  seq 0 (List.length wps - 1).

Definition wp_origin : WaypointDict := mkWp 0 0 0 0.

(** [waypoints[i]], for an index in range. *)
Definition wp_at (wps : list WaypointDict) (i : nat) : WaypointDict :=
  nth i wps wp_origin.

(** The dictionary [check_spatial_conflict] appends for the pair (i, j). *)
Definition spatial_record (i j : nat) (dist : R) (p1 p2 : Waypoint)
    (t1_m t2_m t1_s t2_s : R) : Conflict :=
  let '(p1x, p1y, p1z) := p1 in
  let '(p2x, p2y, p2z) := p2 in
  {| c_segment_mission := Some (i, S i);
     c_segment_schedule := Some (j, S j);
     c_time := None;
     c_distance := dist;
     c_location := ((p1x + p2x) / 2, (p1y + p2y) / 2, (p1z + p2z) / 2);
     c_time_range := Some (Rmax t1_m t1_s, Rmin t2_m t2_s);
     c_drone_id := None;
     c_type := None |}.

(** The body of the two nested loops of [check_spatial_conflict] at
    (i, j): the list of dictionaries appended there. *)
Definition spatial_pair (mw sw : list WaypointDict) (safety_buffer : R)
    (i j : nat) : list Conflict :=
  let t1_m := wp_time (wp_at mw i) in
  let t2_m := wp_time (wp_at mw (S i)) in
  let t1_s := wp_time (wp_at sw j) in
  let t2_s := wp_time (wp_at sw (S j)) in
  if Rleb (Rmax t1_m t1_s) (Rmin t2_m t2_s) then
    let p1 := position (wp_at mw i) in
    let p2 := position (wp_at mw (S i)) in
    let q1 := position (wp_at sw j) in
    let q2 := position (wp_at sw (S j)) in
    let dist := closest_distance_between_segments p1 p2 q1 q2 in
    if Rltb dist safety_buffer then
      [spatial_record i j dist p1 p2 t1_m t2_m t1_s t2_s]
    else []
  else [].

Definition check_spatial_conflict (mission : Mission) (schedule : Schedule)
    (time_window : TimeWindow) (safety_buffer : R) : option (list Conflict) :=
  match py_min_of (map wp_time (sched_waypoints schedule)),
        py_max_of (map wp_time (sched_waypoints schedule)) with
  | Some schedule_start, Some schedule_end =>
      let t_start := tw_start time_window in
      let t_end := tw_end time_window in
      if Rltb schedule_end t_start || Rltb t_end schedule_start then Some []
      else
        Some (flat_map (fun i =>
                flat_map (fun j =>
                  spatial_pair (waypoints mission) (sched_waypoints schedule)
                    safety_buffer i j)
                  (segment_indices (sched_waypoints schedule)))
              (segment_indices (waypoints mission)))
  | _, _ => None
  end.

(** [np.linspace(start, stop, num)] with [num > 1]: the samples
    [k * step + start], the last one set to [stop]; on real numbers,
    without the rounding of [step] and of each sample. *)
Definition linspace (start stop : R) (num : nat) : list R :=
  let step := (stop - start) / INR (num - 1) in
  map (fun k => if Nat.eqb k (num - 1) then stop else INR k * step + start)
      (seq 0 num).

(** Rounding to the nearest integer, ties to the even one. *)
Definition round_half_even (r : R) : Z :=
  let n := Int_part r in
  let f := r - IZR n in
  if Rltb f (1 / 2) then n
  else if Rltb (1 / 2) f then (n + 1)%Z
  else if Z.even n then n else (n + 1)%Z.

(** [round(r, 2)] *)
Definition round2 (r : R) : R := IZR (round_half_even (r * 100)) / 100.

(** The elements of [seen_positions]. *)
Definition PosKey : Type := (R * R * R * R)%type.

Definition pos_key_of (pos_m : Waypoint) (t : R) : PosKey :=
  let '(m0, m1, m2) := pos_m in (round2 m0, round2 m1, round2 m2, round2 t).

Definition key_eqb (k1 k2 : PosKey) : bool :=
  let '(a0, a1, a2, a3) := k1 in
  let '(b0, b1, b2, b3) := k2 in
  Reqb a0 b0 && Reqb a1 b1 && Reqb a2 b2 && Reqb a3 b3.

(** [key in seen_positions]; the set is kept as the list of the keys
    added to it. *)
Definition key_in (k : PosKey) (seen : list PosKey) : bool :=
  existsb (key_eqb k) seen.

(** The dictionary [check_temporal_conflict] appends. *)
Definition temporal_record (schedule : Schedule) (t : R) (pos_m : Waypoint)
    (dist : R) : Conflict :=
  {| c_segment_mission := None;
     c_segment_schedule := None;
     c_time := Some t;
     c_distance := dist;
     c_location := pos_m;
     c_time_range := None;
     c_drone_id := Some (get_drone_id schedule);
     c_type := None |}.

(** The state the loops of [check_temporal_conflict] update:
    [seen_positions] and [conflicts]. *)
Definition TemporalState : Type := (list PosKey * list Conflict)%type.

(** [t1 <= t <= t2] *)
Definition contains_time (wps : list WaypointDict) (i : nat) (t : R) : bool :=
  Rleb (wp_time (wp_at wps i)) t && Rleb t (wp_time (wp_at wps (S i))).

(** The body of the innermost loop, at sample [t], mission position
    [pos_m] and schedule segment [j]. *)
Definition temporal_inner (schedule : Schedule) (safety_buffer : R) (t : R)
    (pos_m : Waypoint) (st : TemporalState) (j : nat) : TemporalState :=
  let sw := sched_waypoints schedule in
  if contains_time sw j t then
    let pos_s := interpolate_position (wp_at sw j) (wp_at sw (S j)) t in
    let dist := norm (vsub pos_m pos_s) in
    if Rltb dist safety_buffer then
      let pos_key := pos_key_of pos_m t in
      let '(seen_positions, conflicts) := st in
      if negb (key_in pos_key seen_positions) then
        (pos_key :: seen_positions,
         conflicts ++ [temporal_record schedule t pos_m dist])
      else st
    else st
  else st.

(** The body of the loop over the mission segments, at sample [t]. *)
Definition temporal_middle (mission : Mission) (schedule : Schedule)
    (safety_buffer : R) (t : R) (st : TemporalState) (i : nat)
    : TemporalState :=
  let mw := waypoints mission in
  if contains_time mw i t then
    let pos_m := interpolate_position (wp_at mw i) (wp_at mw (S i)) t in
    fold_left (temporal_inner schedule safety_buffer t pos_m)
      (segment_indices (sched_waypoints schedule)) st
  else st.

(** The body of the loop over the sample instants. *)
Definition temporal_outer (mission : Mission) (schedule : Schedule)
    (safety_buffer : R) (st : TemporalState) (t : R) : TemporalState :=
  fold_left (temporal_middle mission schedule safety_buffer t)
    (segment_indices (waypoints mission)) st.

Definition check_temporal_conflict (mission : Mission) (schedule : Schedule)
    (time_window : TimeWindow) (safety_buffer : R) : option (list Conflict) :=
  let t_start := tw_start time_window in
  let t_end := tw_end time_window in
  match py_min_of (map wp_time (sched_waypoints schedule)),
        py_max_of (map wp_time (sched_waypoints schedule)) with
  | Some schedule_start, Some schedule_end =>
      if Rltb schedule_end t_start || Rltb t_end schedule_start then Some []
      else
        let time_steps :=
          linspace (Rmax t_start schedule_start) (Rmin t_end schedule_end) 10 in
        Some (snd (fold_left (temporal_outer mission schedule safety_buffer)
                     time_steps ([], [])))
  | _, _ => None
  end.

(** The result dictionary [{status, details}]. *)
Record SafetyResult : Type := mkResult {
  status : string;
  details : list Conflict
}.

Definition tag_spatial (schedule : Schedule) (sc : Conflict) : Conflict :=
  set_type "spatial" (set_drone_id (get_drone_id schedule) sc).

Definition tag_temporal (tc : Conflict) : Conflict :=
  set_type "temporal" tc.

(** The body of the loop of [check_mission_safety]; an exception raised
    by a check ends the call. *)
Definition safety_step (mission : Mission) (safety_buffer : R)
    (acc : option (list Conflict)) (schedule : Schedule)
    : option (list Conflict) :=
  match acc with
  | None => None
  | Some conflicts =>
      match check_spatial_conflict mission schedule (time_window mission)
              safety_buffer with
      | None => None
      | Some spatial_conflicts =>
          match check_temporal_conflict mission schedule (time_window mission)
                  safety_buffer with
          | None => None
          | Some temporal_conflicts =>
              Some (conflicts ++
                    (map (tag_spatial schedule) spatial_conflicts ++
                     map tag_temporal temporal_conflicts))
          end
      end
  end.

Definition check_mission_safety (mission : Mission) (schedules : list Schedule)
    (safety_buffer : R) : option SafetyResult :=
  match fold_left (safety_step mission safety_buffer) schedules (Some []) with
  | None => None
  | Some conflicts =>
      Some {| status := match conflicts with
                        | [] => "clear"
                        | _ :: _ => "conflict detected"
                        end;
              details := conflicts |}
  end.

(** The default of the [safety_buffer] argument. *)
Definition default_safety_buffer : R := 50.

(** ** The specification's reading of the temporal sampling

    The specification words the segment lookup of the temporal check as
    "first match wins": at a sample instant only the first mission
    segment and the first schedule segment containing it are used.
    [check_temporal_conflict_first_match] follows those words; it is
    compared with [check_temporal_conflict] below. *)

Definition first_segment (wps : list WaypointDict) (t : R) : option nat :=
  find (fun i => contains_time wps i t) (segment_indices wps).

Definition temporal_outer_first_match (mission : Mission) (schedule : Schedule)
    (safety_buffer : R) (st : TemporalState) (t : R) : TemporalState :=
  let mw := waypoints mission in
  match first_segment mw t, first_segment (sched_waypoints schedule) t with
  | Some i, Some j =>
      let pos_m := interpolate_position (wp_at mw i) (wp_at mw (S i)) t in
      temporal_inner schedule safety_buffer t pos_m st j
  | _, _ => st
  end.

Definition check_temporal_conflict_first_match (mission : Mission)
    (schedule : Schedule) (time_window : TimeWindow) (safety_buffer : R)
    : option (list Conflict) :=
  let t_start := tw_start time_window in
  let t_end := tw_end time_window in
  match py_min_of (map wp_time (sched_waypoints schedule)),
        py_max_of (map wp_time (sched_waypoints schedule)) with
  | Some schedule_start, Some schedule_end =>
      if Rltb schedule_end t_start || Rltb t_end schedule_start then Some []
      else
        let time_steps :=
          linspace (Rmax t_start schedule_start) (Rmin t_end schedule_end) 10 in
        Some (snd (fold_left
                     (temporal_outer_first_match mission schedule safety_buffer)
                     time_steps ([], [])))
  | _, _ => None
  end.

(** ** Vocabulary of the statements *)

(** The segment index pair (i, j) of a spatial record. *)
Definition spatial_index (c : Conflict) : nat * nat :=
  match c_segment_mission c, c_segment_schedule c with
  | Some (i, _), Some (j, _) => (i, j)
  | _, _ => (O, O)
  end.

(** The order in which the nested loops visit the segment pairs. *)
Definition pair_before (a b : nat * nat) : Prop :=
  (fst a < fst b)%nat \/ (fst a = fst b /\ (snd a < snd b)%nat).

(** The deduplication key of a temporal record. *)
Definition record_key (c : Conflict) : option PosKey :=
  match c_time c with
  | Some t => Some (pos_key_of (c_location c) t)
  | None => None
  end.

(** The record of sample instant [t], mission segment [i] and schedule
    segment [j], when both segments contain [t] and the two interpolated
    positions are closer than the buffer. *)
Definition sample_conflict (mission : Mission) (schedule : Schedule)
    (safety_buffer : R) (t : R) (i j : nat) : option Conflict :=
  let mw := waypoints mission in
  let sw := sched_waypoints schedule in
  if contains_time mw i t && contains_time sw j t then
    let pos_m := interpolate_position (wp_at mw i) (wp_at mw (S i)) t in
    let pos_s := interpolate_position (wp_at sw j) (wp_at sw (S j)) t in
    let dist := norm (vsub pos_m pos_s) in
    if Rltb dist safety_buffer then
      Some (temporal_record schedule t pos_m dist)
    else None
  else None.

(** All of them, in the order of the three nested loops. *)
Definition sample_conflicts (mission : Mission) (schedule : Schedule)
    (safety_buffer : R) (time_steps : list R) : list Conflict :=
  flat_map (fun t =>
    flat_map (fun i =>
      flat_map (fun j =>
        match sample_conflict mission schedule safety_buffer t i j with
        | Some c => [c]
        | None => []
        end)
        (segment_indices (sched_waypoints schedule)))
      (segment_indices (waypoints mission)))
    time_steps.

(** Keeping a record unless its key has been seen. *)
Definition dedup_step (st : TemporalState) (c : Conflict) : TemporalState :=
  match record_key c with
  | Some k =>
      if key_in k (fst st) then st else (k :: fst st, snd st ++ [c])
  | None => st
  end.

(** Every key seen belongs to a record kept. *)
Definition seen_recorded (st : TemporalState) : Prop :=
  forall k, In k (fst st) -> exists c, In c (snd st) /\ record_key c = Some k.

(** The ten sample instants of the temporal check. *)
Definition sample_instants (tw : TimeWindow) (schedule_start schedule_end : R)
    : list R :=
  linspace (Rmax (tw_start tw) schedule_start)
           (Rmin (tw_end tw) schedule_end) 10.

(** What one schedule contributes to [details]: its tagged spatial
    records, then its tagged temporal records. *)
Definition tagged_records (entry : Schedule * (list Conflict * list Conflict))
    : list Conflict :=
  let '(schedule, (spatial_conflicts, temporal_conflicts)) := entry in
  map (tag_spatial schedule) spatial_conflicts ++
  map tag_temporal temporal_conflicts.

(** Record [c] comes before record [c'] in the segment-pair order. *)
Definition index_before (c c' : Conflict) : Prop :=
  pair_before (spatial_index c) (spatial_index c').

(** The two checks of one schedule return the lists [fst p], [snd p]. *)
Definition checks_return (mission : Mission) (safety_buffer : R)
    (schedule : Schedule) (p : list Conflict * list Conflict) : Prop :=
  check_spatial_conflict mission schedule (time_window mission) safety_buffer
    = Some (fst p) /\
  check_temporal_conflict mission schedule (time_window mission) safety_buffer
    = Some (snd p).

(** Every waypoint time of a schedule lies before, or after, a window. *)
Definition span_outside (tw : TimeWindow) (schedule : Schedule) : Prop :=
  sched_waypoints schedule <> [] /\
  (Forall (fun wp => wp_time wp < tw_start tw) (sched_waypoints schedule) \/
   Forall (fun wp => tw_end tw < wp_time wp) (sched_waypoints schedule)).

(** ** Concrete inputs *)

(** The scenario of the specification: two parallel tracks 5 apart. *)
Definition scenario_mission : Mission :=
  mkMission [mkWp 0 0 0 0; mkWp 100 0 0 10] (mkTw 0 10).

Definition scenario_other : Schedule :=
  mkSchedule (Some "drone_1"%string) [mkWp 0 5 0 0; mkWp 100 5 0 10].

(** A schedule flown along the scenario's mission track, after the
    mission's window. *)
Definition night_other : Schedule :=
  mkSchedule (Some "drone_2"%string) [mkWp 0 0 0 20; mkWp 100 0 0 30].

(** A mission that changes position within a zero-duration segment. *)
Definition jump_mission : Mission :=
  mkMission [mkWp 0 0 0 0; mkWp 100 0 0 0; mkWp 100 0 0 0] (mkTw 0 0).

Definition jump_other : Schedule :=
  mkSchedule (Some "drone_1"%string) [mkWp 100 0 0 0; mkWp 100 0 0 0].

(** A hovering mission and a schedule that changes position within a
    zero-duration segment: 8 away, then 3 away. *)
Definition hover_mission : Mission :=
  mkMission [mkWp 0 0 0 0; mkWp 0 0 0 0] (mkTw 0 0).

Definition near_far_other : Schedule :=
  mkSchedule (Some "drone_1"%string)
    [mkWp 0 8 0 0; mkWp 0 3 0 0; mkWp 0 3 0 0].

(** A mission whose window ends before its second segment starts. *)
Definition late_mission : Mission :=
  mkMission [mkWp 0 0 0 0; mkWp 10 0 0 10; mkWp 20 0 0 20] (mkTw 0 5).

Definition late_other : Schedule :=
  mkSchedule (Some "drone_1"%string)
    [mkWp 0 90 0 0; mkWp 10 1 0 15; mkWp 20 1 0 20].

(** ** The kernel on machine numbers

    Where a property hinges on the representation of the numbers, the
    two functions of the geometry kernel are embedded on the numbers
    NumPy and Python compute with. *)

(** *** [interpolate_position] on binary64 floats

    Waypoint fields and the time asked for are Python floats or NumPy
    float64 values; every operation rounds to nearest, ties to even. *)
Module Binary64.
Local Open Scope float_scope.

(** A waypoint dictionary [{x, y, z, time}] of floats. *)
Record WaypointDict : Type := mkWp {
  wp_x : float;
  wp_y : float;
  wp_z : float;
  wp_time : float
}.

Definition Waypoint : Type := (float * float * float)%type.

(** Python's two-argument [min(a, b)] and [max(a, b)]: the first
    argument is kept unless the second compares strictly better; a
    comparison with [nan] is false. *)
Definition py_min (a b : float) : float := if b <? a then b else a.
Definition py_max (a b : float) : float := if a <? b then b else a.

(** [max(0.0, min(1.0, q))] *)
Definition clamp01 (q : float) : float := py_max 0 (py_min 1 q).

Definition interpolate_position (wp1 wp2 : WaypointDict) (t : float)
    : Waypoint :=
  let t1 := wp_time wp1 in
  let t2 := wp_time wp2 in
  if t1 =? t2 then (wp_x wp1, wp_y wp1, wp_z wp1)
  else
    let frac := (t - t1) / (t2 - t1) in
    let frac := clamp01 frac in
    (wp_x wp1 + frac * (wp_x wp2 - wp_x wp1),
     wp_y wp1 + frac * (wp_y wp2 - wp_y wp1),
     wp_z wp1 + frac * (wp_z wp2 - wp_z wp1)).

(** A value of the specification of binary64 that is a non-zero
    number, finite or infinite: neither a zero nor [nan]. *)
Definition is_number (x : spec_float) : Prop :=
  match x with
  | S754_finite _ _ _ | S754_infinity _ => True
  | _ => False
  end.

(** Two waypoints one time unit apart, from (0.9, 0.1, 0) to
    (0.3, 0.7, 0). *)
Definition rounding_start : WaypointDict := mkWp 0.9 0.1 0 0.
Definition rounding_end : WaypointDict := mkWp 0.3 0.7 0 1.
End Binary64.

(** *** [closest_distance_between_segments] on integer coordinates

    [np.array] of a tuple of Python integers that fit 64 bits is an
    int64 array: [u], [v], [w], the five dot products and [D] are int64
    values, computed modulo 2^64.  Floats appear at the comparison of
    [D] with [1e-10], at the divisions ([/] on int64 scalars converts
    both to float64 and divides) and from [sc * u] on. *)
Module Int64.
Local Open Scope Z_scope.

(** The two's-complement value of an integer in 64 bits. *)
Definition wrap (z : Z) : Z := (z + 2 ^ 63) mod 2 ^ 64 - 2 ^ 63.

Definition add (x y : Z) : Z := wrap (x + y).
Definition sub (x y : Z) : Z := wrap (x - y).
Definition mul (x y : Z) : Z := wrap (x * y).

Definition Waypoint : Type := (Z * Z * Z)%type.

Definition vsub (p q : Waypoint) : Waypoint :=
  let '(p0, p1, p2) := p in let '(q0, q1, q2) := q in
  (sub p0 q0, sub p1 q1, sub p2 q2).

Definition dot (p q : Waypoint) : Z :=
  let '(p0, p1, p2) := p in let '(q0, q1, q2) := q in
  add (add (mul p0 q0) (mul p1 q1)) (mul p2 q2).

(** The float64 nearest to an int64. *)
Definition to_float (z : Z) : float :=
  SF2Prim (binary_normalize prec emax z 0 false).

Definition closest_distance_between_segments (p1 p2 q1 q2 : Waypoint)
    : float :=
  let u := vsub p2 p1 in
  let v := vsub q2 q1 in
  let w := vsub p1 q1 in
  let a := dot u u in
  let b := dot u v in
  let c := dot v v in
  let d := dot u w in
  let e := dot v w in
  let D := sub (mul a c) (mul b b) in
  let '(sc, tc) :=
    if (to_float D <? 1e-10)%float then
      (0%float,
       if c <? b then (to_float d / to_float b)%float
       else (to_float e / to_float c)%float)
    else
      ((to_float (sub (mul b e) (mul c d)) / to_float D)%float,
       (to_float (sub (mul a e) (mul b d)) / to_float D)%float) in
  let sc := Binary64.clamp01 sc in
  let tc := Binary64.clamp01 tc in
  let '(u0, u1, u2) := u in
  let '(v0, v1, v2) := v in
  let '(w0, w1, w2) := w in
  let dP0 := (to_float w0 + sc * to_float u0 - tc * to_float v0)%float in
  let dP1 := (to_float w1 + sc * to_float u1 - tc * to_float v1)%float in
  let dP2 := (to_float w2 + sc * to_float u2 - tc * to_float v2)%float in
  PrimFloat.sqrt (dP0 * dP0 + dP1 * dP1 + dP2 * dP2)%float.
End Int64.

(** ** The loader: validation of the parsed test data

    [load_test_data] reads a file, parses it with [json.load] and
    validates the parsed value; the validation (everything after the
    parse) is modelled here on the Python value the parser returns. *)

(** A parsed number: [int] or [float] ([json.load] also yields [nan]
    and the infinities). *)
Inductive jnumber : Type :=
| JInt (z : Z)
| JFloat (x : xfloat).

(** A parsed JSON value.  A [dict] is the list of its items in
    insertion order; a lookup takes the first item with the key. *)
#[local] Set Warnings "-register-all".
Inductive json : Type :=
| JNull
| JBool (b : bool)
| JNum (n : jnumber)
| JStr (s : string)
| JArr (items : list json)
| JObj (members : list (string * json)).

(** The exceptions the modelled code raises; [MinOfEmpty] is the
    [ValueError] of [min()] on an empty sequence. *)
Inductive exn : Type :=
| ValueError (msg : string)
| TypeError
| KeyError (key : string)
| MinOfEmpty.

Inductive result (A : Type) : Type :=
| Ok (a : A)
| Raise (e : exn).

Arguments Ok {A} a.
Arguments Raise {A} e.

Definition bind {A B : Type} (c : result A) (k : A -> result B) : result B :=
  match c with
  | Ok a => k a
  | Raise e => Raise e
  end.

Notation "x <- c1 ;; c2" := (bind c1 (fun x => c2))
  (at level 61, c1 at next level, right associativity).

(** [isinstance(v, dict)], [isinstance(v, list)], [isinstance(v, str)]
    and [isinstance(v, (int, float))]; [bool] is a subclass of [int]. *)
Definition is_dict (v : json) : bool :=
  match v with JObj _ => true | _ => false end.

Definition is_list (v : json) : bool :=
  match v with JArr _ => true | _ => false end.

Definition is_str (v : json) : bool :=
  match v with JStr _ => true | _ => false end.

Definition is_numeric (v : json) : bool :=
  match v with JBool _ | JNum _ => true | _ => false end.

Fixpoint dict_get (members : list (string * json)) (key : string)
    : option json :=
  match members with
  | [] => None
  | (k, v) :: rest => if String.eqb k key then Some v else dict_get rest key
  end.

(** The items of a dict: one per key, the first of each. *)
Fixpoint dict_items_from (seen : list string) (members : list (string * json))
    : list (string * json) :=
  match members with
  | [] => []
  | (k, v) :: rest =>
      if existsb (String.eqb k) seen then dict_items_from seen rest
      else (k, v) :: dict_items_from (k :: seen) rest
  end.

Definition dict_items (members : list (string * json))
    : list (string * json) :=
  dict_items_from [] members.

Fixpoint is_substring (needle hay : string) : bool :=
  String.prefix needle hay ||
  match hay with
  | EmptyString => false
  | String _ rest => is_substring needle rest
  end.

(** [key in v]: a key of a dict, an element of a list, a substring of a
    string; anything else is not iterable. *)
Definition py_contains (key : string) (v : json) : result bool :=
  match v with
  | JObj members =>
      Ok (match dict_get members key with Some _ => true | None => false end)
  | JArr items =>
      Ok (existsb (fun x => match x with
                            | JStr s => String.eqb s key
                            | _ => false
                            end) items)
  | JStr s => Ok (is_substring key s)
  | _ => Raise TypeError
  end.

(** [v[key]] with a string key. *)
Definition py_getitem (v : json) (key : string) : result json :=
  match v with
  | JObj members =>
      match dict_get members key with
      | Some x => Ok x
      | None => Raise (KeyError key)
      end
  | _ => Raise TypeError
  end.

(** [key not in v or not isinstance(v[key], ...)] *)
Definition missing_or_not (is_instance : json -> bool) (v : json)
    (key : string) : result bool :=
  present <- py_contains key v ;;
  if negb present then Ok true
  else x <- py_getitem v key ;; Ok (negb (is_instance x)).

Definition required_fields : list string :=
  ["x"; "y"; "z"; "time"]%string.

(** The loop over [required_fields.items()] for one waypoint. *)
Fixpoint check_fields (msg : string -> string) (wp : json)
    (fields : list string) : result unit :=
  match fields with
  | [] => Ok tt
  | field :: rest =>
      bad <- missing_or_not is_numeric wp field ;;
      if bad then Raise (ValueError (msg field))
      else check_fields msg wp rest
  end.

Fixpoint check_waypoints (msg : string -> string) (wps : list json)
    : result unit :=
  match wps with
  | [] => Ok tt
  | wp :: rest =>
      _ <- check_fields msg wp required_fields ;;
      check_waypoints msg rest
  end.

Definition mission_waypoint_msg (field : string) : string :=
  ("Error: Mission waypoint missing valid '" ++ field ++ "' (numeric).")%string.

Definition schedule_waypoint_msg (id field : string) : string :=
  ("Error: Waypoint for " ++ id ++ " missing valid '" ++ field
   ++ "' (numeric).")%string.

(** [schedule.get('drone_id', 'unknown')] as the error messages print
    it; it is only evaluated once the identifier is known to be a
    string. *)
Definition schedule_label (schedule : json) : string :=
  match schedule with
  | JObj members =>
      match dict_get members "drone_id" with
      | Some (JStr id) => id
      | _ => "unknown"%string
      end
  | _ => "unknown"%string
  end.

(** The body of [for schedule in data["schedules"]]. *)
Definition check_schedule (schedule : json) : result unit :=
  bad <- missing_or_not is_str schedule "drone_id" ;;
  if bad then
    Raise (ValueError "Error: Schedule missing valid 'drone_id' (string).")
  else
    bad <- missing_or_not is_list schedule "waypoints" ;;
    if bad then
      Raise (ValueError ("Error: Schedule for " ++ schedule_label schedule
                         ++ " missing 'waypoints' list.")%string)
    else
      wps <- py_getitem schedule "waypoints" ;;
      match wps with
      | JArr [] =>
          Raise (ValueError ("Error: Waypoints for " ++ schedule_label schedule
                             ++ " cannot be empty.")%string)
      | JArr items =>
          check_waypoints (schedule_waypoint_msg (schedule_label schedule)) items
      | _ => Raise TypeError
      end.

Fixpoint check_schedules (schedules : list json) : result unit :=
  match schedules with
  | [] => Ok tt
  | schedule :: rest => _ <- check_schedule schedule ;; check_schedules rest
  end.

(** [v not in ["clear", "conflict detected"]], negated. *)
Definition is_expected (v : json) : bool :=
  match v with
  | JStr s => String.eqb s "clear" || String.eqb s "conflict detected"
  | _ => false
  end.

(** The body of [for scenario_id, scenario in ...items()]. *)
Definition check_scenario (entry : string * json) : result unit :=
  let '(scenario_id, scenario) := entry in
  if negb (is_dict scenario) then
    Raise (ValueError ("Error: Scenario " ++ scenario_id
                       ++ " must be an object.")%string)
  else
    bad <- missing_or_not is_str scenario "drone_id" ;;
    if bad then
      Raise (ValueError ("Error: Scenario " ++ scenario_id
                         ++ " missing valid 'drone_id' (string).")%string)
    else
      bad <- missing_or_not is_expected scenario "expected" ;;
      if bad then
        Raise (ValueError ("Error: Scenario " ++ scenario_id
          ++ " missing valid 'expected' ('clear' or 'conflict detected').")%string)
      else Ok tt.

Fixpoint check_scenarios (entries : list (string * json)) : result unit :=
  match entries with
  | [] => Ok tt
  | entry :: rest => _ <- check_scenario entry ;; check_scenarios rest
  end.

(** The validation of [load_test_data], from the [isinstance(data,
    dict)] test to [return data]. *)
Definition validate_test_data (data : json) : result json :=
  if negb (is_dict data) then
    Raise (ValueError "Error: JSON root must be an object.")
  else
    present <- py_contains "mission" data ;;
    if negb present then
      Raise (ValueError "Error: 'mission' field missing in JSON.")
    else
      mission <- py_getitem data "mission" ;;
      if negb (is_dict mission) then
        Raise (ValueError "Error: 'mission' must be an object.")
      else
        bad <- missing_or_not is_list mission "waypoints" ;;
        if bad then
          Raise (ValueError "Error: 'mission.waypoints' must be a list.")
        else
          wps <- py_getitem mission "waypoints" ;;
          match wps with
          | JArr [] =>
              Raise (ValueError "Error: 'mission.waypoints' cannot be empty.")
          | JArr mission_wps =>
              bad <- missing_or_not is_dict mission "time_window" ;;
              if bad then
                Raise (ValueError
                         "Error: 'mission.time_window' must be an object.")
              else
                tw <- py_getitem mission "time_window" ;;
                has_start <- py_contains "start" tw ;;
                has_end <- (if has_start then py_contains "end" tw
                            else Ok false) ;;
                if negb (has_start && has_end) then
                  Raise (ValueError
                    "Error: 'mission.time_window' must have 'start' and 'end'.")
                else
                  bad <- missing_or_not is_list data "schedules" ;;
                  if bad then
                    Raise (ValueError "Error: 'schedules' must be a list.")
                  else
                    _ <- check_waypoints mission_waypoint_msg mission_wps ;;
                    schedules <- py_getitem data "schedules" ;;
                    match schedules with
                    | JArr items =>
                        _ <- check_schedules items ;;
                        has_tests <- py_contains "test_scenarios" data ;;
                        if has_tests then
                          tests <- py_getitem data "test_scenarios" ;;
                          match tests with
                          | JObj members =>
                              _ <- check_scenarios (dict_items members) ;;
                              Ok data
                          | _ =>
                              Raise (ValueError
                                "Error: 'test_scenarios' must be an object.")
                          end
                        else Ok data
                    | _ => Raise TypeError
                    end
          | _ => Raise TypeError
          end.

(** *** What the validation accepts, said without the code *)

Definition numeric_field (members : list (string * json)) (key : string)
    : Prop :=
  exists v, dict_get members key = Some v /\ is_numeric v = true.

Definition valid_waypoint (wp : json) : Prop :=
  exists members,
    wp = JObj members /\
    numeric_field members "x" /\ numeric_field members "y" /\
    numeric_field members "z" /\ numeric_field members "time".

Definition valid_schedule (schedule : json) : Prop :=
  exists members id wps,
    schedule = JObj members /\
    dict_get members "drone_id" = Some (JStr id) /\
    dict_get members "waypoints" = Some (JArr wps) /\
    wps <> [] /\ Forall valid_waypoint wps.

Definition valid_scenario (scenario : json) : Prop :=
  exists members id expected,
    scenario = JObj members /\
    dict_get members "drone_id" = Some (JStr id) /\
    dict_get members "expected" = Some (JStr expected) /\
    (expected = "clear"%string \/ expected = "conflict detected"%string).

Definition accepted (data : json) : Prop :=
  exists root mission wps tw schedules,
    data = JObj root /\
    dict_get root "mission" = Some (JObj mission) /\
    dict_get mission "waypoints" = Some (JArr wps) /\
    wps <> [] /\ Forall valid_waypoint wps /\
    dict_get mission "time_window" = Some (JObj tw) /\
    dict_get tw "start" <> None /\ dict_get tw "end" <> None /\
    dict_get root "schedules" = Some (JArr schedules) /\
    Forall valid_schedule schedules /\
    match dict_get root "test_scenarios" with
    | None => True
    | Some tests =>
        exists members,
          tests = JObj members /\
          Forall (fun entry => valid_scenario (snd entry)) (dict_items members)
    end.

(** The scenario of the specification as parsed test data, with one
    test scenario that has no description. *)
Definition json_waypoint (x y z t : Z) : json :=
  JObj [("x", JNum (JInt x)); ("y", JNum (JInt y)); ("z", JNum (JInt z));
        ("time", JNum (JInt t))]%string.

Definition sample_data : json :=
  JObj [("mission",
         JObj [("waypoints",
                JArr [json_waypoint 0 0 0 0; json_waypoint 100 0 0 10]);
               ("time_window",
                JObj [("start", JNum (JInt 0)); ("end", JNum (JInt 10))])]);
        ("schedules",
         JArr [JObj [("drone_id", JStr "drone_1");
                     ("waypoints",
                      JArr [json_waypoint 0 5 0 0;
                            json_waypoint 100 5 0 10])]]);
        ("test_scenarios",
         JObj [("s1", JObj [("drone_id", JStr "drone_1");
                            ("expected", JStr "conflict detected")])])]%string.

(** Test data whose first mission waypoint is [null]. *)
Definition null_waypoint_data : json :=
  JObj [("mission",
         JObj [("waypoints", JArr [JNull]);
               ("time_window",
                JObj [("start", JNum (JInt 0)); ("end", JNum (JInt 10))])]);
        ("schedules", JArr [])]%string.

(** A value [key in v] cannot be asked of. *)
Definition not_iterable (v : json) : Prop :=
  match v with
  | JNull | JBool _ | JNum _ => True
  | _ => False
  end.

(** ** The command line of the main program *)

(** [s.endswith(suffix)] and [s.startswith(prefix)] *)
Definition endswith (s suffix : string) : bool :=
  let n := String.length s in
  let m := String.length suffix in
  (m <=? n)%nat && String.eqb (substring (n - m) m s) suffix.

Definition startswith (s prefix : string) : bool := String.prefix prefix s.

Definition default_data_file : string := "test_data.json".

(** The filter of the list comprehension over [sys.argv[1:]]. *)
Definition is_data_file_arg (arg : string) : bool :=
  endswith arg ".json" && negb (startswith arg "-").

(** The choice of [data_file] in the main program, with the lines it
    prints; [jupyter] is what [is_jupyter()] returns. *)
Definition select_data_file (jupyter : bool) (argv : list string)
    : string * list string :=
  if jupyter then
    (default_data_file,
     [("Running in Jupyter. Using default file: " ++ default_data_file)%string])
  else if (2 <=? List.length argv)%nat then
    match filter is_data_file_arg (tl argv) with
    | [] =>
        (default_data_file,
         [("Warning: No valid JSON file provided. Using default: "
           ++ default_data_file)%string])
    | data_file :: others =>
        (data_file,
         if (1 <? List.length (data_file :: others))%nat then
           [("Warning: Multiple JSON files provided. Using only: "
             ++ data_file)%string]
         else [])
    end
  else (default_data_file, []).

(** ** The test runner *)

(** A test scenario [{drone_id, expected, description}]; the
    validation requires the first two keys only. *)
Record Scenario : Type := mkScenario {
  sc_drone_id : string;
  sc_expected : string;
  sc_description : option string
}.

(** What [run_tests] prints: a line of text, or the line of a details
    list. *)
Inductive printed : Type :=
| Line (text : string)
| DetailsLine (details : list Conflict).

(** [next((s for s in schedules if s["drone_id"] == drone_id), None)] *)
Fixpoint find_schedule (schedules : list Schedule) (id : string)
    : result (option Schedule) :=
  match schedules with
  | [] => Ok None
  | s :: rest =>
      match drone_id s with
      | None => Raise (KeyError "drone_id")
      | Some d => if String.eqb d id then Ok (Some s) else find_schedule rest id
      end
  end.

(** The body of the loop of [run_tests] for one scenario: the lines
    printed, or the exception raised before any of them. *)
Definition run_scenario (mission : Mission) (schedules : list Schedule)
    (entry : string * Scenario) : result (list printed) :=
  let '(scenario_id, scenario) := entry in
  found <- find_schedule schedules (sc_drone_id scenario) ;;
  match found with
  | None =>
      Ok [Line ("Scenario " ++ scenario_id ++ ": Error - Drone "
                ++ sc_drone_id scenario ++ " not found in schedules")%string]
  | Some schedule =>
      match check_mission_safety mission [schedule] default_safety_buffer with
      | None => Raise MinOfEmpty
      | Some res =>
          match sc_description scenario with
          | None => Raise (KeyError "description")
          | Some description =>
              Ok [Line ("Scenario " ++ scenario_id ++ ": " ++ description)%string;
                  Line ("Expected: " ++ sc_expected scenario ++ ", Got: "
                        ++ status res)%string;
                  DetailsLine (details res)]
          end
      end
  end.

(** [run_tests]: everything printed, and the exception that ended the
    run, if any. *)
Fixpoint run_tests (mission : Mission) (schedules : list Schedule)
    (scenarios : list (string * Scenario)) : list printed * option exn :=
  match scenarios with
  | [] => ([], None)
  | entry :: rest =>
      match run_scenario mission schedules entry with
      | Raise e => ([], Some e)
      | Ok lines =>
          let '(more, e) := run_tests mission schedules rest in
          (lines ++ more, e)
      end
  end.

(** ** The markers of a frame of the display *)



(** The loop that places the primary drone in a frame: the position of
    the marker appended before the [break], if any. *)
Fixpoint primary_marker_from (mw : list WaypointDict) (t : R)
    (indices : list nat) : option Waypoint :=
  match indices with
  | [] => None
  | i :: rest =>
      if contains_time mw i t then
        Some (interpolate_position (wp_at mw i) (wp_at mw (S i)) t)
      else if Rltb t (wp_time (wp_at mw 0)) then
        Some (position (wp_at mw 0))
      else primary_marker_from mw t rest
  end.

Definition primary_marker (mission : Mission) (t : R) : option Waypoint :=
  primary_marker_from (waypoints mission) t
    (segment_indices (waypoints mission)).

(** * Properties *)

(** ** Comparisons and the clamp *)

Lemma Rltb_true a b : a < b -> Rltb a b = true.
Proof. intros H; unfold Rltb; destruct (Rlt_dec a b); [reflexivity | contradiction]. Qed.

Lemma Rltb_false a b : ~ a < b -> Rltb a b = false.
Proof. intros H; unfold Rltb; destruct (Rlt_dec a b); [contradiction | reflexivity]. Qed.

Lemma Rltb_spec a b : Rltb a b = true <-> a < b.
Proof. unfold Rltb; destruct (Rlt_dec a b); split; intros; try discriminate; try contradiction; trivial. Qed.

Lemma Rleb_true a b : a <= b -> Rleb a b = true.
Proof. intros H; unfold Rleb; destruct (Rle_dec a b); [reflexivity | contradiction]. Qed.

Lemma Rleb_false a b : ~ a <= b -> Rleb a b = false.
Proof. intros H; unfold Rleb; destruct (Rle_dec a b); [contradiction | reflexivity]. Qed.

Lemma Rleb_spec a b : Rleb a b = true <-> a <= b.
Proof. unfold Rleb; destruct (Rle_dec a b); split; intros; try discriminate; try contradiction; trivial. Qed.

Lemma Reqb_true a b : a = b -> Reqb a b = true.
Proof. intros H; unfold Reqb; destruct (Req_dec_T a b); [reflexivity | contradiction]. Qed.

Lemma Reqb_false a b : a <> b -> Reqb a b = false.
Proof. intros H; unfold Reqb; destruct (Req_dec_T a b); [contradiction | reflexivity]. Qed.

Lemma Reqb_spec a b : Reqb a b = true <-> a = b.
Proof. unfold Reqb; destruct (Req_dec_T a b); split; intros; try discriminate; try contradiction; trivial. Qed.

Lemma eps_pos : 0 < eps.
Proof. unfold eps; apply Rinv_0_lt_compat, pow_lt; lra. Qed.

Lemma clamp01_fin r : clamp01 (Fin r) = Rmax 0 (Rmin 1 r).
Proof.
  unfold clamp01, py_max, py_min, xltb.
  destruct (Rlt_dec r 1) as [H1 | H1].
  - rewrite (Rltb_true _ _ H1), (Rmin_right 1 r) by lra.
    destruct (Rlt_dec 0 r) as [H0 | H0].
    + rewrite (Rltb_true _ _ H0), Rmax_right by lra; reflexivity.
    + rewrite (Rltb_false _ _ H0), Rmax_left by lra; reflexivity.
  - rewrite (Rltb_false _ _ H1), (Rmin_left 1 r) by lra.
    rewrite Rltb_true, Rmax_right by lra; reflexivity.
Qed.

Lemma fdiv_nonzero a b : b <> 0 -> fdiv a b = Fin (a / b).
Proof. intros H; unfold fdiv; rewrite Reqb_false by assumption; reflexivity. Qed.

(** ** The kernel on machine numbers *)

Section MachineNumbers.
Local Open Scope float_scope.

(** *** Binary64 facts *)

(** [max(0.0, min(1.0, q))] is q when 0 < q < 1, 0 when q < 1 but not
    0 < q, and 1 when not q < 1 (a [nan] included). *)
Lemma clamp01_cases (q : float) :
  ((q <? 1) = true -> (0 <? q) = true -> Binary64.clamp01 q = q) /\
  ((q <? 1) = true -> (0 <? q) = false -> Binary64.clamp01 q = 0) /\
  ((q <? 1) = false -> Binary64.clamp01 q = 1).
Proof.
  unfold Binary64.clamp01, Binary64.py_min, Binary64.py_max.
  repeat split.
  - intros H1 H0. rewrite H1, H0. reflexivity.
  - intros H1 H0. rewrite H1, H0. reflexivity.
  - intros H1. rewrite H1. reflexivity.
Qed.

Lemma float_finite_spec (x : float) :
  is_finite x = true ->
  (exists s, Prim2SF x = S754_zero s) \/
  (exists s m e, Prim2SF x = S754_finite s m e).
Proof.
  unfold is_finite, is_nan, is_infinity.
  rewrite !FloatAxioms.eqb_spec, FloatAxioms.abs_spec.
  change (Prim2SF infinity) with (S754_infinity false).
  destruct (Prim2SF x) as [s | s | | s m e]; cbn; try discriminate; eauto.
  all: try (destruct s; cbn; discriminate).
Qed.

Lemma sub_self (x : float) : is_finite x = true -> x - x = 0.
Proof.
  intros Hx. apply Prim2SF_inj. rewrite FloatAxioms.sub_spec.
  change (Prim2SF 0) with (S754_zero false).
  destruct (float_finite_spec x Hx) as [[s ->] | (s & m & e & ->)].
  - destruct s; reflexivity.
  - unfold SF64sub, SFsub. rewrite Z.sub_diag. reflexivity.
Qed.

Lemma div_self_spec (s : bool) (m : positive) (e : Z) :
  SF64div (S754_finite s m e) (S754_finite s m e) = Prim2SF 1.
Proof.
  unfold SF64div, SFdiv, SFdiv_core_binary.
  rewrite !Z.sub_diag.
  change (Z.min (fexp prec emax 0) 0) with (-53)%Z.
  change (0 - -53)%Z with 53%Z.
  cbv beta iota zeta.
  replace (Z.div_eucl (Z.shiftl (Z.pos m) 53) (Z.pos m)) with (2 ^ 53, 0)%Z.
  - replace (new_location (Z.pos m) 0) with loc_Exact
      by (unfold new_location; destruct (Z.even (Z.pos m)); reflexivity).
    destruct s; vm_compute; reflexivity.
  - rewrite Z.shiftl_mul_pow2 by lia.
    pose proof (Z.div_eucl_eq (Z.pos m * 2 ^ 53) (Z.pos m)) as Heq.
    pose proof (Z.mod_pos_bound (Z.pos m * 2 ^ 53) (Z.pos m)) as Hb.
    unfold Z.modulo in Hb.
    destruct (Z.div_eucl (Z.pos m * 2 ^ 53) (Z.pos m)) as [q r].
    assert (Hm : (0 < Z.pos m)%Z) by lia.
    specialize (Heq ltac:(lia)). specialize (Hb Hm).
    remember (2 ^ 53)%Z as K eqn:HK.
    assert (Hq : (q = K)%Z) by nia.
    assert (Hr : (r = 0)%Z) by nia.
    rewrite Hq, Hr. reflexivity.
Qed.

Lemma clamp01_self_quotient (d : float) : Binary64.clamp01 (d / d) = 1.
Proof.
  assert (H : d / d = nan \/ d / d = 1).
  { destruct (Prim2SF d) as [s | s | | s m e] eqn:Hd.
    - left. apply Prim2SF_inj. rewrite FloatAxioms.div_spec, Hd. reflexivity.
    - left. apply Prim2SF_inj. rewrite FloatAxioms.div_spec, Hd. reflexivity.
    - left. apply Prim2SF_inj. rewrite FloatAxioms.div_spec, Hd. reflexivity.
    - right. apply Prim2SF_inj. rewrite FloatAxioms.div_spec, Hd.
      apply div_self_spec. }
  destruct H as [-> | ->]; reflexivity.
Qed.

Lemma zero_quotient (d : float) :
  is_nan d = false -> is_zero d = false -> Binary64.clamp01 (0 / d) = 0.
Proof.
  unfold is_nan, is_zero. rewrite !FloatAxioms.eqb_spec.
  change (Prim2SF zero) with (S754_zero false).
  intros Hnan Hzero.
  assert (H : 0 / d = 0 \/ 0 / d = neg_zero).
  { destruct (Prim2SF d) as [s | s | | s m e] eqn:Hd; cbn in Hnan, Hzero;
      try discriminate.
    - destruct s; [right | left]; apply Prim2SF_inj;
        rewrite FloatAxioms.div_spec, Hd; reflexivity.
    - destruct s; [right | left]; apply Prim2SF_inj;
        rewrite FloatAxioms.div_spec, Hd; reflexivity. }
  destruct H as [-> | ->]; reflexivity.
Qed.

Lemma blend_at_zero (x dx : float) :
  is_finite x = true -> is_finite dx = true -> (x + 0 * dx =? x) = true.
Proof.
  intros Hx Hdx.
  assert (Hz : 0 * dx = 0 \/ 0 * dx = neg_zero).
  { destruct (float_finite_spec dx Hdx) as [[s Hd] | (s & m & e & Hd)];
      (destruct s; [right | left]); apply Prim2SF_inj;
      rewrite FloatAxioms.mul_spec, Hd; reflexivity. }
  rewrite FloatAxioms.eqb_spec, FloatAxioms.add_spec.
  assert (Hself : forall s m e,
            SFeqb (S754_finite s m e) (S754_finite s m e) = true).
  { intros s m e. unfold SFeqb, SFcompare.
    rewrite Z.compare_refl, Pos.compare_cont_refl. destruct s; reflexivity. }
  destruct (float_finite_spec x Hx) as [[s Hs] | (s & m & e & Hs)];
    destruct Hz as [-> | ->]; rewrite Hs.
  - destruct s; reflexivity.
  - destruct s; reflexivity.
  - apply Hself.
  - apply Hself.
Qed.

(** The difference of two distinct finite floats is neither zero nor
    [nan]: rounding a non-zero integer multiple of a power of two at or
    above the least exponent never gives zero. *)

Lemma shr_1_m (r : shr_record) :
  (0 <= shr_m r)%Z -> shr_m (shr_1 r) = Z.shiftr (shr_m r) 1.
Proof.
  destruct r as [m r s]. cbn [shr_m]. intros Hm.
  destruct m as [| [p | p |] | p]; try reflexivity; lia.
Qed.

Lemma iter_shr_m (p : positive) (r : shr_record) :
  (0 <= shr_m r)%Z ->
  shr_m (SpecFloat.iter_pos shr_1 p r) = Z.shiftr (shr_m r) (Z.pos p).
Proof.
  revert r. induction p as [p IH | p IH |]; intros r Hr; cbn [SpecFloat.iter_pos].
  - assert (H1 : (0 <= shr_m (shr_1 r))%Z)
      by (rewrite shr_1_m by exact Hr; apply Z.shiftr_nonneg; exact Hr).
    assert (H2 : (0 <= shr_m (SpecFloat.iter_pos shr_1 p (shr_1 r)))%Z)
      by (rewrite IH by exact H1; apply Z.shiftr_nonneg; exact H1).
    rewrite IH by exact H2. rewrite IH by exact H1. rewrite shr_1_m by exact Hr.
    rewrite !Z.shiftr_shiftr by lia. f_equal. lia.
  - assert (H1 : (0 <= shr_m (SpecFloat.iter_pos shr_1 p r))%Z)
      by (rewrite IH by exact Hr; apply Z.shiftr_nonneg; exact Hr).
    rewrite IH by exact H1. rewrite IH by exact Hr.
    rewrite Z.shiftr_shiftr by lia. f_equal. lia.
  - apply shr_1_m; exact Hr.
Qed.

Lemma digits2_pos_lower (q : positive) :
  (2 ^ (Z.pos (digits2_pos q) - 1) <= Z.pos q)%Z.
Proof.
  induction q as [q IH | q IH |]; cbn [digits2_pos].
  - rewrite Pos2Z.inj_succ.
    replace (Z.succ (Z.pos (digits2_pos q)) - 1)%Z
      with (Z.succ (Z.pos (digits2_pos q) - 1))%Z by lia.
    rewrite Z.pow_succ_r by lia. lia.
  - rewrite Pos2Z.inj_succ.
    replace (Z.succ (Z.pos (digits2_pos q)) - 1)%Z
      with (Z.succ (Z.pos (digits2_pos q) - 1))%Z by lia.
    rewrite Z.pow_succ_r by lia. lia.
  - cbn. lia.
Qed.

Lemma shr_record_of_loc_m (m : Z) (l : location) :
  shr_m (shr_record_of_loc m l) = m.
Proof. destruct l as [| []]; reflexivity. Qed.

Lemma shr_fexp_positive (m : positive) (e : Z) (l : location) :
  (emin <= e)%Z ->
  (0 < shr_m (fst (shr_fexp prec emax (Z.pos m) e l)))%Z /\
  (emin <= snd (shr_fexp prec emax (Z.pos m) e l))%Z.
Proof.
  intros He. unfold shr_fexp, shr. cbn [Zdigits2].
  destruct (fexp prec emax (Z.pos (digits2_pos m) + e) - e)%Z as [| n | n] eqn:Hn;
    cbn [fst snd]; rewrite ?shr_record_of_loc_m; try (split; lia).
  rewrite iter_shr_m by (rewrite shr_record_of_loc_m; lia).
  rewrite shr_record_of_loc_m.
  split; [| lia].
  unfold fexp in Hn.
  assert (Hn' : (Z.pos n = Z.pos (digits2_pos m) - prec)%Z) by lia.
  change prec with 53%Z in Hn'.
  rewrite Z.shiftr_div_pow2 by lia.
  apply Z.div_str_pos. split; [apply Z.pow_pos_nonneg; lia |].
  pose proof (digits2_pos_lower m) as Hd.
  apply Z.le_trans with (2 ^ (Z.pos (digits2_pos m) - 1))%Z; [| exact Hd].
  apply Z.pow_le_mono_r; lia.
Qed.

Lemma round_nearest_even_positive (m : Z) (l : location) :
  (0 < m)%Z -> (0 < round_nearest_even m l)%Z.
Proof.
  intros Hm. destruct l as [| []]; cbn [round_nearest_even]; try lia.
  destruct (Z.even m); lia.
Qed.

Lemma binary_round_aux_number (sx : bool) (m : positive) (e : Z) (l : location) :
  (emin <= e)%Z -> Binary64.is_number (binary_round_aux prec emax sx (Z.pos m) e l).
Proof.
  intros He. unfold binary_round_aux.
  destruct (shr_fexp_positive m e l He) as [H1 H2].
  destruct (shr_fexp prec emax (Z.pos m) e l) as [mrs' e'].
  cbn [fst snd] in H1, H2.
  pose proof (round_nearest_even_positive (shr_m mrs') (loc_of_shr_record mrs') H1)
    as Hr.
  destruct (round_nearest_even (shr_m mrs') (loc_of_shr_record mrs'))
    as [| m1 | m1]; try lia.
  destruct (shr_fexp_positive m1 e' loc_Exact H2) as [H3 _].
  destruct (shr_fexp prec emax (Z.pos m1) e' loc_Exact) as [mrs'' e''].
  cbn [fst] in H3.
  destruct (shr_m mrs'') as [| m2 | m2]; try lia.
  destruct (Z.leb e'' (emax - prec)); exact I.
Qed.

Lemma binary_round_number (sx : bool) (m : positive) (e : Z) :
  (emin <= e)%Z -> Binary64.is_number (binary_round prec emax sx m e).
Proof.
  intros He. unfold binary_round, shl_align.
  destruct (fexp prec emax (Z.pos (digits2_pos m) + e) - e)%Z as [| d | d] eqn:Hd;
    try (apply binary_round_aux_number; exact He).
  apply binary_round_aux_number. unfold fexp. lia.
Qed.

Lemma binary_normalize_number (m e : Z) :
  m <> 0%Z -> (emin <= e)%Z -> Binary64.is_number (binary_normalize prec emax m e false).
Proof.
  intros Hm He. destruct m as [| m | m]; [contradiction | |];
    apply binary_round_number; exact He.
Qed.

Lemma iter_xO_value (m d : positive) :
  Z.pos (Pos.iter xO m d) = (Z.pos m * 2 ^ Z.pos d)%Z.
Proof.
  induction d as [| d IH] using Pos.peano_ind.
  - cbn. lia.
  - rewrite Pos.iter_succ, Pos2Z.inj_succ, Z.pow_succ_r by lia.
    rewrite Pos2Z.inj_xO, IH. lia.
Qed.

Lemma iter_xO_digits (m d : positive) :
  Z.pos (digits2_pos (Pos.iter xO m d)) = (Z.pos (digits2_pos m) + Z.pos d)%Z.
Proof.
  induction d as [| d IH] using Pos.peano_ind.
  - cbn. lia.
  - rewrite Pos.iter_succ. cbn [digits2_pos].
    rewrite !Pos2Z.inj_succ, IH. lia.
Qed.

Lemma shl_align_spec (m : positive) (e e' : Z) :
  (e' <= e)%Z ->
  Z.pos (fst (shl_align m e e')) = (Z.pos m * 2 ^ (e - e'))%Z /\
  Z.pos (digits2_pos (fst (shl_align m e e'))) =
    (Z.pos (digits2_pos m) + (e - e'))%Z.
Proof.
  intros Hle. unfold shl_align.
  destruct (e' - e)%Z as [| d | d] eqn:Hd; cbn [fst]; try lia.
  - replace (e - e')%Z with 0%Z by lia. cbn. lia.
  - replace (e - e')%Z with (Z.pos d) by lia.
    split; [apply iter_xO_value | apply iter_xO_digits].
Qed.

Lemma SFeqb_refl_finite (s : bool) (m : positive) (e : Z) :
  SFeqb (S754_finite s m e) (S754_finite s m e) = true.
Proof.
  unfold SFeqb, SFcompare.
  rewrite Z.compare_refl, Pos.compare_cont_refl. destruct s; reflexivity.
Qed.

Lemma canonical_exponent (m : positive) (e : Z) :
  valid_binary (S754_finite false m e) = true ->
  fexp prec emax (Z.pos (digits2_pos m) + e) = e.
Proof.
  cbn [SpecFloat.valid_binary]. unfold bounded, canonical_mantissa.
  intros H. apply andb_true_iff in H. destruct H as [H _].
  apply Z.eqb_eq in H. exact H.
Qed.

Lemma sub_number (x y : spec_float) :
  valid_binary x = true -> valid_binary y = true ->
  match x with S754_zero _ | S754_finite _ _ _ => True | _ => False end ->
  match y with S754_zero _ | S754_finite _ _ _ => True | _ => False end ->
  SFeqb y x = false ->
  Binary64.is_number (SF64sub x y).
Proof.
  intros Hvx Hvy Hx Hy Hne.
  destruct x as [sx | sx | | sx mx ex]; try contradiction;
    destruct y as [sy | sy | | sy my ey]; try contradiction; cbn [SF64sub SFsub].
  - discriminate Hne.
  - exact I.
  - exact I.
  - unfold SF64sub, SFsub.
    assert (Hcx : fexp prec emax (Z.pos (digits2_pos mx) + ex) = ex)
      by (apply canonical_exponent; exact Hvx).
    assert (Hcy : fexp prec emax (Z.pos (digits2_pos my) + ey) = ey)
      by (apply canonical_exponent; exact Hvy).
    assert (Hex : (emin <= ex)%Z) by (rewrite <- Hcx; unfold fexp; lia).
    assert (Hey : (emin <= ey)%Z) by (rewrite <- Hcy; unfold fexp; lia).
    apply binary_normalize_number; [| lia].
    destruct (shl_align_spec mx ex (Z.min ex ey)) as [Hax Hdx]; [lia |].
    destruct (shl_align_spec my ey (Z.min ex ey)) as [Hay Hdy]; [lia |].
    set (a := fst (shl_align mx ex (Z.min ex ey))) in *.
    set (b := fst (shl_align my ey (Z.min ex ey))) in *.
    intros HM.
    assert (Hab : sx = sy /\ a = b).
    { destruct sx, sy; cbn [cond_Zopp] in HM; try lia;
        (split; [reflexivity | lia]). }
    destruct Hab as [<- Hab]. rewrite Hab in Hax, Hdx.
    assert (Hsum : (Z.pos (digits2_pos mx) + ex = Z.pos (digits2_pos my) + ey)%Z)
      by lia.
    assert (Hee : ex = ey) by (rewrite <- Hcx, <- Hcy, Hsum; reflexivity).
    subst ey.
    rewrite Z.min_id, Z.sub_diag in Hax, Hay.
    assert (Hmm : mx = my) by (cbn in Hax, Hay; lia).
    subst my. rewrite SFeqb_refl_finite in Hne. discriminate.
Qed.

Lemma nonzero_difference (t1 t2 : float) :
  is_finite t1 = true -> is_finite t2 = true -> (t1 =? t2) = false ->
  is_nan (t2 - t1) = false /\ is_zero (t2 - t1) = false.
Proof.
  intros H1 H2 Hne.
  rewrite FloatAxioms.eqb_spec in Hne.
  assert (Hnum : Binary64.is_number (Prim2SF (t2 - t1))).
  { rewrite FloatAxioms.sub_spec. apply sub_number.
    - apply Prim2SF_valid.
    - apply Prim2SF_valid.
    - destruct (float_finite_spec t2 H2) as [[s ->] | (s & m & e & ->)]; exact I.
    - destruct (float_finite_spec t1 H1) as [[s ->] | (s & m & e & ->)]; exact I.
    - exact Hne. }
  unfold is_nan, is_zero. rewrite !FloatAxioms.eqb_spec.
  change (Prim2SF zero) with (S754_zero false).
  destruct (Prim2SF (t2 - t1)) as [s | s | | s m e]; try contradiction.
  - split; [| destruct s; reflexivity]. destruct s; reflexivity.
  - split; [| destruct s; reflexivity].
    rewrite SFeqb_refl_finite. reflexivity.
Qed.

(** *** Interpolation in binary64 *)

(** C8, as stated, fails: from (0.9, 0.1, 0) at time 0 to (0.3, 0.7, 0)
    at time 1, the position returned at the second waypoint's time has
    x = 0.29999999999999993, which does not compare equal to the second
    waypoint's x; at the middle time the y returned is 0.4, which does
    not compare equal to the arithmetic midpoint (0.1 + 0.7) / 2 =
    0.39999999999999997. *)
Lemma interpolation_rounds :
  (Binary64.wp_time Binary64.rounding_start =?
   Binary64.wp_time Binary64.rounding_end) = false /\
  Binary64.interpolate_position Binary64.rounding_start Binary64.rounding_end
    (Binary64.wp_time Binary64.rounding_end) =
    (0.29999999999999993, 0.7, 0) /\
  (0.29999999999999993 =? Binary64.wp_x Binary64.rounding_end) = false /\
  Binary64.interpolate_position Binary64.rounding_start Binary64.rounding_end
    ((Binary64.wp_time Binary64.rounding_start +
      Binary64.wp_time Binary64.rounding_end) / 2) = (0.6, 0.4, 0) /\
  (Binary64.wp_y Binary64.rounding_start +
   Binary64.wp_y Binary64.rounding_end) / 2 = 0.39999999999999997 /\
  (0.4 =? (Binary64.wp_y Binary64.rounding_start +
           Binary64.wp_y Binary64.rounding_end) / 2) = false.
Proof. repeat split; vm_compute; reflexivity. Qed.

(** C8, as the code has it, on binary64 waypoints: a pair with equal
    times returns the first waypoint's position for every t; otherwise
    the position returned is the blend x1 + frac * (x2 - x1) of each
    coordinate, where frac is the quotient q = (t - t1) / (t2 - t1)
    clamped: q itself when 0 < q < 1, 0 when q < 1 but not 0 < q, and 1
    when not q < 1; at the second waypoint's time frac is 1; at the
    first waypoint's time, for finite times, frac is 0 and every
    coordinate returned compares equal to the first waypoint's when
    that coordinate and the coordinate difference are finite. *)
Theorem interpolate_position_binary64 (wp1 wp2 : Binary64.WaypointDict) :
  let t1 := Binary64.wp_time wp1 in
  let t2 := Binary64.wp_time wp2 in
  let x1 := Binary64.wp_x wp1 in
  let y1 := Binary64.wp_y wp1 in
  let z1 := Binary64.wp_z wp1 in
  let x2 := Binary64.wp_x wp2 in
  let y2 := Binary64.wp_y wp2 in
  let z2 := Binary64.wp_z wp2 in
  ((t1 =? t2) = true ->
   forall t, Binary64.interpolate_position wp1 wp2 t = (x1, y1, z1)) /\
  ((t1 =? t2) = false ->
   (forall t,
      let q := (t - t1) / (t2 - t1) in
      let frac := Binary64.clamp01 q in
      Binary64.interpolate_position wp1 wp2 t =
        (x1 + frac * (x2 - x1), y1 + frac * (y2 - y1), z1 + frac * (z2 - z1)) /\
      ((q <? 1) = true -> (0 <? q) = true -> frac = q) /\
      ((q <? 1) = true -> (0 <? q) = false -> frac = 0) /\
      ((q <? 1) = false -> frac = 1)) /\
   Binary64.interpolate_position wp1 wp2 t2 =
     (x1 + 1 * (x2 - x1), y1 + 1 * (y2 - y1), z1 + 1 * (z2 - z1)) /\
   (is_finite t1 = true -> is_finite t2 = true ->
    Binary64.interpolate_position wp1 wp2 t1 =
      (x1 + 0 * (x2 - x1), y1 + 0 * (y2 - y1), z1 + 0 * (z2 - z1)) /\
    (is_finite x1 = true -> is_finite (x2 - x1) = true ->
     (x1 + 0 * (x2 - x1) =? x1) = true) /\
    (is_finite y1 = true -> is_finite (y2 - y1) = true ->
     (y1 + 0 * (y2 - y1) =? y1) = true) /\
    (is_finite z1 = true -> is_finite (z2 - z1) = true ->
     (z1 + 0 * (z2 - z1) =? z1) = true))).
Proof.
  intros t1 t2 x1 y1 z1 x2 y2 z2. split.
  - intros Heq t. unfold Binary64.interpolate_position. fold t1 t2.
    rewrite Heq. reflexivity.
  - intros Hne.
    assert (Hgen : forall t,
      Binary64.interpolate_position wp1 wp2 t =
      (x1 + Binary64.clamp01 ((t - t1) / (t2 - t1)) * (x2 - x1),
       y1 + Binary64.clamp01 ((t - t1) / (t2 - t1)) * (y2 - y1),
       z1 + Binary64.clamp01 ((t - t1) / (t2 - t1)) * (z2 - z1))).
    { intros t. unfold Binary64.interpolate_position. fold t1 t2.
      rewrite Hne. reflexivity. }
    split; [| split].
    + intros t q frac. split; [apply Hgen | apply clamp01_cases].
    + rewrite Hgen, clamp01_self_quotient. reflexivity.
    + intros Hf1 Hf2.
      destruct (nonzero_difference t1 t2 Hf1 Hf2 Hne) as [Hnan Hzero].
      split.
      * rewrite Hgen, (sub_self t1 Hf1), (zero_quotient _ Hnan Hzero).
        reflexivity.
      * repeat split; apply blend_at_zero.
Qed.

Lemma interpolate_position_binary64_witness :
  Binary64.interpolate_position Binary64.rounding_start Binary64.rounding_end 1 =
    (0.9 + 1 * (0.3 - 0.9), 0.1 + 1 * (0.7 - 0.1), 0 + 1 * (0 - 0)) /\
  Binary64.interpolate_position Binary64.rounding_start Binary64.rounding_end 0 =
    (0.9 + 0 * (0.3 - 0.9), 0.1 + 0 * (0.7 - 0.1), 0 + 0 * (0 - 0)) /\
  (0.9 + 0 * (0.3 - 0.9) =? 0.9) = true.
Proof.
  assert (Hne : (Binary64.wp_time Binary64.rounding_start =?
                 Binary64.wp_time Binary64.rounding_end) = false) by reflexivity.
  destruct (proj2 (interpolate_position_binary64 Binary64.rounding_start
                     Binary64.rounding_end) Hne) as (_ & Hend & Hstart).
  destruct (Hstart eq_refl eq_refl) as (H0 & Hx & _).
  split; [exact Hend |]. split; [exact H0 |].
  apply Hx; reflexivity.
Defined.

(** *** The kernel on int64 coordinates *)

(** C7: for the integer segment from (0, 0, 0) to (2^32, 0, 0) against
    itself, the squared length 2^64 wraps to 0 in int64, so a = b = c =
    0; the parallel branch divides 0 by 0, the clamp turns the [nan]
    into 1, and the value returned is 4294967296.0, not 0. *)
Theorem self_distance_int64_overflow :
  Int64.dot (4294967296, 0, 0)%Z (4294967296, 0, 0)%Z = 0%Z /\
  Int64.closest_distance_between_segments
    (0, 0, 0)%Z (4294967296, 0, 0)%Z (0, 0, 0)%Z (4294967296, 0, 0)%Z =
  4294967296.
Proof. split; vm_compute; reflexivity. Qed.

(** The same kernel on the integer inputs met elsewhere: 5.0 between
    the two tracks of the scenario, and the rounded square root of 2501
    against the single point (50, 1, 0), where 0/0 is clamped to 1 and
    the distance 1 to the segment is missed. *)
Lemma int64_kernel_examples :
  Int64.closest_distance_between_segments
    (0, 0, 0)%Z (100, 0, 0)%Z (0, 5, 0)%Z (100, 5, 0)%Z = 5 /\
  Int64.closest_distance_between_segments
    (0, 0, 0)%Z (100, 0, 0)%Z (50, 1, 0)%Z (50, 1, 0)%Z = PrimFloat.sqrt 2501.
Proof. split; vm_compute; reflexivity. Qed.

End MachineNumbers.

(** ** The divisions of the kernel *)

(** C4: the division of the parallel branch is by exactly zero when
    the other segment is a single point: at p1 = (0,0,0),
    p2 = (100,0,0), q1 = q2 = (50,1,0) the one division performed has
    divisor 0. *)
Theorem closest_distance_divides_by_zero :
  closest_distance_divisors (0, 0, 0) (100, 0, 0) (50, 1, 0) (50, 1, 0) = [0].
Proof.
  unfold closest_distance_divisors. cbv [vsub dot].
  rewrite Rltb_true by (pose proof eps_pos; lra).
  rewrite Rltb_false by lra.
  f_equal. lra.
Qed.

(** ** Minimum and maximum of the waypoint times *)

Lemma fold_min_spec (l : list R) (a : R) :
  let m := fold_left (fun m r => if Rltb r m then r else m) l a in
  In m (a :: l) /\ m <= a /\ Forall (fun r => m <= r) l.
Proof.
  revert a; induction l as [| b l IH]; intros a; cbn [fold_left].
  - repeat split; [left; reflexivity | lra | constructor].
  - destruct (IH (if Rltb b a then b else a)) as (Hin & Hle & Hall).
    destruct (Rlt_dec b a) as [Hba | Hba].
    + rewrite (Rltb_true _ _ Hba) in *.
      repeat split; [right; exact Hin | lra | constructor; [lra | exact Hall]].
    + rewrite (Rltb_false _ _ Hba) in *.
      repeat split; [| lra | constructor; [lra | exact Hall]].
      destruct Hin as [Hin | Hin]; [left; exact Hin | right; right; exact Hin].
Qed.

Lemma fold_max_spec (l : list R) (a : R) :
  let m := fold_left (fun m r => if Rltb m r then r else m) l a in
  In m (a :: l) /\ a <= m /\ Forall (fun r => r <= m) l.
Proof.
  revert a; induction l as [| b l IH]; intros a; cbn [fold_left].
  - repeat split; [left; reflexivity | lra | constructor].
  - destruct (IH (if Rltb a b then b else a)) as (Hin & Hle & Hall).
    destruct (Rlt_dec a b) as [Hab | Hab].
    + rewrite (Rltb_true _ _ Hab) in *.
      repeat split; [right; exact Hin | lra | constructor; [lra | exact Hall]].
    + rewrite (Rltb_false _ _ Hab) in *.
      repeat split; [| lra | constructor; [lra | exact Hall]].
      destruct Hin as [Hin | Hin]; [left; exact Hin | right; right; exact Hin].
Qed.

Lemma py_min_of_spec (l : list R) (m : R) :
  py_min_of l = Some m -> In m l /\ Forall (fun r => m <= r) l.
Proof.
  destruct l as [| a l]; [discriminate |].
  cbn [py_min_of]. intros H; injection H as <-.
  destruct (fold_min_spec l a) as (Hin & Hle & Hall).
  split; [exact Hin | constructor; assumption].
Qed.

Lemma py_max_of_spec (l : list R) (m : R) :
  py_max_of l = Some m -> In m l /\ Forall (fun r => r <= m) l.
Proof.
  destruct l as [| a l]; [discriminate |].
  cbn [py_max_of]. intros H; injection H as <-.
  destruct (fold_max_spec l a) as (Hin & Hle & Hall).
  split; [exact Hin | constructor; assumption].
Qed.

Lemma time_span_defined (wps : list WaypointDict) :
  wps <> [] ->
  exists lo hi, py_min_of (map wp_time wps) = Some lo /\
                py_max_of (map wp_time wps) = Some hi.
Proof.
  destruct wps as [| wp wps]; [congruence |]. intros _.
  cbn [map py_min_of py_max_of]. eauto.
Qed.

(** ** The whole-trajectory prune *)

Lemma pruned_when_outside (tw : TimeWindow) (schedule : Schedule) :
  span_outside tw schedule ->
  exists lo hi,
    py_min_of (map wp_time (sched_waypoints schedule)) = Some lo /\
    py_max_of (map wp_time (sched_waypoints schedule)) = Some hi /\
    Rltb hi (tw_start tw) || Rltb (tw_end tw) lo = true.
Proof.
  intros [Hne Hout].
  destruct (time_span_defined _ Hne) as (lo & hi & Hlo & Hhi).
  exists lo, hi. repeat split; try assumption.
  apply py_min_of_spec in Hlo. apply py_max_of_spec in Hhi.
  destruct Hlo as [Hlo _], Hhi as [Hhi _].
  apply in_map_iff in Hlo, Hhi.
  destruct Hlo as (wl & <- & Hwl), Hhi as (wh & <- & Hwh).
  rewrite Forall_forall in Hout. rewrite Forall_forall in Hout.
  destruct Hout as [Hout | Hout].
  - rewrite (Rltb_true _ _ (Hout _ Hwh)). reflexivity.
  - rewrite (Rltb_true _ _ (Hout _ Hwl)). apply orb_true_r.
Qed.

Lemma spatial_pruned (mission : Mission) (schedule : Schedule)
    (tw : TimeWindow) (B : R) :
  span_outside tw schedule ->
  check_spatial_conflict mission schedule tw B = Some [].
Proof.
  intros H. destruct (pruned_when_outside _ _ H) as (lo & hi & Hlo & Hhi & Hp).
  unfold check_spatial_conflict. rewrite Hlo, Hhi, Hp. reflexivity.
Qed.

Lemma temporal_pruned (mission : Mission) (schedule : Schedule)
    (tw : TimeWindow) (B : R) :
  span_outside tw schedule ->
  check_temporal_conflict mission schedule tw B = Some [].
Proof.
  intros H. destruct (pruned_when_outside _ _ H) as (lo & hi & Hlo & Hhi & Hp).
  unfold check_temporal_conflict. rewrite Hlo, Hhi, Hp. reflexivity.
Qed.

Lemma spatial_defined (mission : Mission) (schedule : Schedule)
    (tw : TimeWindow) (B : R) :
  sched_waypoints schedule <> [] ->
  exists l, check_spatial_conflict mission schedule tw B = Some l.
Proof.
  intros H. destruct (time_span_defined _ H) as (lo & hi & Hlo & Hhi).
  unfold check_spatial_conflict. rewrite Hlo, Hhi.
  destruct (_ || _); eauto.
Qed.

Lemma temporal_defined (mission : Mission) (schedule : Schedule)
    (tw : TimeWindow) (B : R) :
  sched_waypoints schedule <> [] ->
  exists l, check_temporal_conflict mission schedule tw B = Some l.
Proof.
  intros H. destruct (time_span_defined _ H) as (lo & hi & Hlo & Hhi).
  unfold check_temporal_conflict. rewrite Hlo, Hhi.
  destruct (_ || _); eauto.
Qed.

(** ** Order of the spatial records *)

Section SortedLists.
Context {A B : Type} (RA : A -> A -> Prop) (RB : B -> B -> Prop).

Lemma sorted_app (l1 l2 : list B) :
  StronglySorted RB l1 -> StronglySorted RB l2 ->
  (forall b b', In b l1 -> In b' l2 -> RB b b') ->
  StronglySorted RB (l1 ++ l2).
Proof.
  induction 1 as [| b l1 Hs IH Hb]; intros H2 Hcross; cbn [app].
  - exact H2.
  - constructor.
    + apply IH; [exact H2 |]. intros x y Hx Hy. apply Hcross; [right |]; assumption.
    + apply Forall_app. split; [exact Hb |].
      apply Forall_forall. intros y Hy. apply Hcross; [left; reflexivity | exact Hy].
Qed.

Lemma sorted_flat_map (f : A -> list B) (l : list A) :
  StronglySorted RA l ->
  (forall a, In a l -> StronglySorted RB (f a)) ->
  (forall a a' b b', RA a a' -> In b (f a) -> In b' (f a') -> RB b b') ->
  StronglySorted RB (flat_map f l).
Proof.
  intros Hl Hf Hcross.
  induction Hl as [| a l Hs IH Ha]; cbn [flat_map].
  - constructor.
  - apply sorted_app.
    + apply Hf; left; reflexivity.
    + apply IH. intros x Hx. apply Hf; right; exact Hx.
    + intros b b' Hb Hb'. apply in_flat_map in Hb'.
      destruct Hb' as (a' & Ha' & Hb').
      rewrite Forall_forall in Ha.
      apply (Hcross a a'); auto.
Qed.
End SortedLists.

Lemma seq_sorted (start len : nat) : StronglySorted lt (seq start len).
Proof.
  revert start; induction len as [| len IH]; intros start; cbn [seq].
  - constructor.
  - constructor; [apply IH |].
    apply Forall_forall. intros x Hx. apply in_seq in Hx. lia.
Qed.

Lemma spatial_pair_cases (mw sw : list WaypointDict) (B : R) (i j : nat) :
  spatial_pair mw sw B i j = [] \/
  exists c, spatial_pair mw sw B i j = [c] /\
            spatial_index c = (i, j) /\
            c_distance c =
              closest_distance_between_segments
                (position (wp_at mw i)) (position (wp_at mw (S i)))
                (position (wp_at sw j)) (position (wp_at sw (S j))) /\
            c_distance c < B /\
            c_time_range c =
              Some (Rmax (wp_time (wp_at mw i)) (wp_time (wp_at sw j)),
                    Rmin (wp_time (wp_at mw (S i))) (wp_time (wp_at sw (S j)))).
Proof.
  unfold spatial_pair.
  destruct (Rleb _ _); [| left; reflexivity].
  destruct (Rlt_dec
    (closest_distance_between_segments (position (wp_at mw i))
       (position (wp_at mw (S i))) (position (wp_at sw j))
       (position (wp_at sw (S j)))) B) as [Hd | Hd].
  - rewrite (Rltb_true _ _ Hd). right. eexists; split; [reflexivity |].
    unfold spatial_record, position; cbn. repeat split; try reflexivity. exact Hd.
  - rewrite (Rltb_false _ _ Hd). left; reflexivity.
Qed.

Lemma spatial_pair_index (mw sw : list WaypointDict) (B : R) (i j : nat) c :
  In c (spatial_pair mw sw B i j) -> spatial_index c = (i, j).
Proof.
  destruct (spatial_pair_cases mw sw B i j) as [-> | (c' & -> & Hi & _)].
  - intros [].
  - intros [<- | []]. exact Hi.
Qed.

Lemma spatial_pair_sorted (mw sw : list WaypointDict) (B : R) (i j : nat) :
  StronglySorted index_before (spatial_pair mw sw B i j).
Proof.
  destruct (spatial_pair_cases mw sw B i j) as [-> | (c' & -> & _)].
  - constructor.
  - repeat constructor.
Qed.

Lemma spatial_loops_sorted (mw sw : list WaypointDict) (B : R) :
  StronglySorted index_before
    (flat_map (fun i =>
       flat_map (fun j => spatial_pair mw sw B i j) (segment_indices sw))
       (segment_indices mw)).
Proof.
  apply (sorted_flat_map lt); [apply seq_sorted | |].
  - intros i _. apply (sorted_flat_map lt); [apply seq_sorted | |].
    + intros j _. apply spatial_pair_sorted.
    + intros j j' c c' Hjj Hc Hc'.
      apply spatial_pair_index in Hc, Hc'.
      unfold index_before, pair_before. rewrite Hc, Hc'. cbn. right. lia.
  - intros i i' c c' Hii Hc Hc'.
    apply in_flat_map in Hc, Hc'.
    destruct Hc as (j & _ & Hc), Hc' as (j' & _ & Hc').
    apply spatial_pair_index in Hc, Hc'.
    unfold index_before, pair_before. rewrite Hc, Hc'. cbn. left. lia.
Qed.

Lemma spatial_sorted (mission : Mission) (schedule : Schedule)
    (tw : TimeWindow) (B : R) (l : list Conflict) :
  check_spatial_conflict mission schedule tw B = Some l ->
  StronglySorted index_before l.
Proof.
  unfold check_spatial_conflict.
  destruct (py_min_of _); [| discriminate].
  destruct (py_max_of _); [| discriminate].
  destruct (_ || _); intros H; injection H as <-.
  - constructor.
  - apply spatial_loops_sorted.
Qed.

(** ** The temporal loops as a deduplicating pass over all samples *)

Lemma fold_left_pointwise {S X : Type} (f g : S -> X -> S) (l : list X) :
  (forall st x, In x l -> f st x = g st x) ->
  forall st, fold_left f l st = fold_left g l st.
Proof.
  induction l as [| x l IH]; intros Hfg st; cbn [fold_left]; [reflexivity |].
  rewrite Hfg by (left; reflexivity).
  apply IH. intros st' y Hy. apply Hfg. right; exact Hy.
Qed.

Lemma fold_left_flat_map {S X Y : Type} (f : S -> Y -> S) (g : X -> list Y)
    (l : list X) (st : S) :
  fold_left f (flat_map g l) st =
  fold_left (fun st x => fold_left f (g x) st) l st.
Proof.
  revert st; induction l as [| x l IH]; intros st; cbn [flat_map fold_left].
  - reflexivity.
  - rewrite fold_left_app. apply IH.
Qed.

Lemma flat_map_nil {X Y : Type} (g : X -> list Y) (l : list X) :
  (forall x, In x l -> g x = []) -> flat_map g l = [].
Proof.
  induction l as [| x l IH]; intros Hg; cbn [flat_map]; [reflexivity |].
  rewrite Hg by (left; reflexivity). apply IH.
  intros y Hy. apply Hg. right; exact Hy.
Qed.

Lemma temporal_inner_dedup (mission : Mission) (schedule : Schedule) (B t : R)
    (i j : nat) (st : TemporalState) :
  contains_time (waypoints mission) i t = true ->
  temporal_inner schedule B t
    (interpolate_position (wp_at (waypoints mission) i)
       (wp_at (waypoints mission) (S i)) t) st j =
  fold_left dedup_step
    (match sample_conflict mission schedule B t i j with
     | Some c => [c]
     | None => []
     end) st.
Proof.
  intros Hm. unfold temporal_inner, sample_conflict. rewrite Hm. cbn [andb].
  destruct (contains_time (sched_waypoints schedule) j t); [| reflexivity].
  destruct (Rltb _ B); [| reflexivity].
  cbn [fold_left]. unfold dedup_step.
  cbn [record_key temporal_record c_time c_location].
  destruct st as [seen conflicts]. cbn [fst snd].
  destruct (key_in _ seen); reflexivity.
Qed.

Lemma temporal_middle_dedup (mission : Mission) (schedule : Schedule) (B t : R)
    (i : nat) (st : TemporalState) :
  temporal_middle mission schedule B t st i =
  fold_left dedup_step
    (flat_map (fun j =>
       match sample_conflict mission schedule B t i j with
       | Some c => [c]
       | None => []
       end) (segment_indices (sched_waypoints schedule))) st.
Proof.
  unfold temporal_middle.
  destruct (contains_time (waypoints mission) i t) eqn:Hm.
  - rewrite fold_left_flat_map. apply fold_left_pointwise.
    intros st' j _. apply temporal_inner_dedup. exact Hm.
  - rewrite flat_map_nil; [reflexivity |].
    intros j _. unfold sample_conflict. rewrite Hm. reflexivity.
Qed.

Lemma temporal_outer_dedup (mission : Mission) (schedule : Schedule) (B t : R)
    (st : TemporalState) :
  temporal_outer mission schedule B st t =
  fold_left dedup_step (sample_conflicts mission schedule B [t]) st.
Proof.
  unfold temporal_outer, sample_conflicts. cbn [flat_map].
  rewrite app_nil_r, fold_left_flat_map.
  apply fold_left_pointwise. intros st' i _. apply temporal_middle_dedup.
Qed.

Lemma temporal_loops_dedup (mission : Mission) (schedule : Schedule) (B : R)
    (time_steps : list R) (st : TemporalState) :
  fold_left (temporal_outer mission schedule B) time_steps st =
  fold_left dedup_step (sample_conflicts mission schedule B time_steps) st.
Proof.
  unfold sample_conflicts at 1. rewrite fold_left_flat_map.
  apply fold_left_pointwise. intros st' t _.
  rewrite temporal_outer_dedup. unfold sample_conflicts. cbn [flat_map].
  rewrite app_nil_r. reflexivity.
Qed.

(** The temporal check visits, at every sample instant, every mission
    segment and every schedule segment containing the instant, and
    keeps the first record of each rounded key. *)
Lemma temporal_all_pairs (mission : Mission) (schedule : Schedule)
    (tw : TimeWindow) (B : R) :
  check_temporal_conflict mission schedule tw B =
  match py_min_of (map wp_time (sched_waypoints schedule)),
        py_max_of (map wp_time (sched_waypoints schedule)) with
  | Some lo, Some hi =>
      if Rltb hi (tw_start tw) || Rltb (tw_end tw) lo then Some []
      else Some (snd (fold_left dedup_step
                        (sample_conflicts mission schedule B
                           (sample_instants tw lo hi)) ([], [])))
  | _, _ => None
  end.
Proof.
  unfold check_temporal_conflict, sample_instants.
  destruct (py_min_of _) as [lo |]; [| reflexivity].
  destruct (py_max_of _) as [hi |]; [| reflexivity].
  destruct (_ || _); [reflexivity |].
  rewrite temporal_loops_dedup. reflexivity.
Qed.

(** *** Deduplication *)

Lemma key_eqb_spec (k1 k2 : PosKey) : key_eqb k1 k2 = true <-> k1 = k2.
Proof.
  destruct k1 as [[[a0 a1] a2] a3], k2 as [[[b0 b1] b2] b3]. unfold key_eqb.
  rewrite !andb_true_iff, !Reqb_spec. split.
  - intros [[[-> ->] ->] ->]. reflexivity.
  - intros H; injection H as -> -> -> ->. auto.
Qed.

Lemma key_in_spec (k : PosKey) (seen : list PosKey) :
  key_in k seen = true <-> In k seen.
Proof.
  unfold key_in. rewrite existsb_exists. split.
  - intros (k' & Hin & Heq). apply key_eqb_spec in Heq. subst; exact Hin.
  - intros Hin. exists k. split; [exact Hin | apply key_eqb_spec; reflexivity].
Qed.

Lemma dedup_sound (l : list Conflict) (st : TemporalState) (c : Conflict) :
  In c (snd (fold_left dedup_step l st)) -> In c (snd st) \/ In c l.
Proof.
  revert st; induction l as [| c0 l IH]; intros st; cbn [fold_left].
  - auto.
  - intros H. apply IH in H. destruct H as [H | H]; [| right; right; exact H].
    unfold dedup_step in H.
    destruct (record_key c0); [| left; exact H].
    destruct (key_in _ _); [left; exact H |].
    cbn [snd] in H. apply in_app_or in H.
    destruct H as [H | [<- | []]]; [left; exact H | right; left; reflexivity].
Qed.

Lemma dedup_keeps_seen (l : list Conflict) (st : TemporalState) (k : PosKey) :
  In k (fst st) -> In k (fst (fold_left dedup_step l st)).
Proof.
  revert st; induction l as [| c0 l IH]; intros st Hk; cbn [fold_left].
  - exact Hk.
  - apply IH. unfold dedup_step.
    destruct (record_key c0); [| exact Hk].
    destruct (key_in _ _); [exact Hk | right; exact Hk].
Qed.

Lemma dedup_sees (l : list Conflict) (st : TemporalState) (c : Conflict)
    (k : PosKey) :
  In c l -> record_key c = Some k -> In k (fst (fold_left dedup_step l st)).
Proof.
  revert st; induction l as [| c0 l IH]; intros st Hc Hk; [destruct Hc |].
  cbn [fold_left]. destruct Hc as [-> | Hc]; [| apply IH; assumption].
  apply dedup_keeps_seen. unfold dedup_step. rewrite Hk.
  destruct (key_in k (fst st)) eqn:Hseen.
  - apply key_in_spec; exact Hseen.
  - left; reflexivity.
Qed.

Lemma dedup_seen_recorded (l : list Conflict) (st : TemporalState) :
  seen_recorded st -> seen_recorded (fold_left dedup_step l st).
Proof.
  revert st; induction l as [| c0 l IH]; intros st Hst; cbn [fold_left].
  - exact Hst.
  - apply IH. unfold dedup_step.
    destruct (record_key c0) as [k0 |] eqn:Hk0; [| exact Hst].
    destruct (key_in _ _); [exact Hst |].
    intros k [<- | Hk]; cbn [snd].
    + exists c0. split; [apply in_or_app; right; left; reflexivity | exact Hk0].
    + destruct (Hst k Hk) as (c & Hc & Hkc).
      exists c. split; [apply in_or_app; left; exact Hc | exact Hkc].
Qed.

Lemma dedup_covers (l : list Conflict) (c : Conflict) (k : PosKey) :
  In c l -> record_key c = Some k ->
  exists c', In c' (snd (fold_left dedup_step l ([], []))) /\
             record_key c' = Some k.
Proof.
  intros Hc Hk.
  apply (dedup_seen_recorded l ([], [])).
  - intros k' [].
  - apply (dedup_sees l ([], []) c k Hc Hk).
Qed.

(** ** The aggregation of [check_mission_safety] *)

Lemma safety_fold_none (mission : Mission) (B : R) (schedules : list Schedule) :
  fold_left (safety_step mission B) schedules None = None.
Proof. induction schedules as [| s ss IH]; [reflexivity | exact IH]. Qed.

Lemma safety_fold_some (mission : Mission) (B : R) (schedules : list Schedule)
    (per : list (list Conflict * list Conflict)) (acc : list Conflict) :
  Forall2 (checks_return mission B) schedules per ->
  fold_left (safety_step mission B) schedules (Some acc) =
  Some (acc ++ flat_map tagged_records (combine schedules per)).
Proof.
  intros H; revert acc.
  induction H as [| s [sp tp] ss per [Hsp Htp] _ IH]; intros acc.
  - cbn. rewrite app_nil_r. reflexivity.
  - cbn [fold_left safety_step combine flat_map].
    cbn [fst snd] in Hsp, Htp. rewrite Hsp, Htp, IH.
    cbn [tagged_records]. rewrite <- app_assoc. reflexivity.
Qed.

Lemma checks_defined (mission : Mission) (B : R) (schedules : list Schedule) :
  Forall (fun s => sched_waypoints s <> []) schedules ->
  exists per, Forall2 (checks_return mission B) schedules per.
Proof.
  induction 1 as [| s ss Hs _ [per IH]].
  - exists []. constructor.
  - destruct (spatial_defined mission s (time_window mission) B Hs) as [sp Hsp].
    destruct (temporal_defined mission s (time_window mission) B Hs) as [tp Htp].
    exists ((sp, tp) :: per). constructor; [split; assumption | exact IH].
Qed.

Lemma safety_result (mission : Mission) (B : R) (schedules : list Schedule)
    (per : list (list Conflict * list Conflict)) :
  Forall2 (checks_return mission B) schedules per ->
  check_mission_safety mission schedules B =
  Some {| status := match flat_map tagged_records (combine schedules per) with
                    | [] => "clear"
                    | _ :: _ => "conflict detected"
                    end;
          details := flat_map tagged_records (combine schedules per) |}.
Proof.
  intros H. unfold check_mission_safety.
  rewrite (safety_fold_some _ _ _ _ [] H). reflexivity.
Qed.

Lemma safety_defined (mission : Mission) (schedules : list Schedule) (B : R) :
  Forall (fun s => sched_waypoints s <> []) schedules ->
  exists res, check_mission_safety mission schedules B = Some res.
Proof.
  intros Hne. destruct (checks_defined mission B schedules Hne) as [per Hper].
  eexists. apply (safety_result _ _ _ _ Hper).
Qed.

Lemma sample_conflicts_in (mission : Mission) (schedule : Schedule) (B : R)
    (time_steps : list R) (c : Conflict) :
  In c (sample_conflicts mission schedule B time_steps) <->
  exists t i j,
    In t time_steps /\
    In i (segment_indices (waypoints mission)) /\
    In j (segment_indices (sched_waypoints schedule)) /\
    sample_conflict mission schedule B t i j = Some c.
Proof.
  unfold sample_conflicts. split.
  - intros Hc.
    apply in_flat_map in Hc. destruct Hc as (t & Ht & Hc).
    apply in_flat_map in Hc. destruct Hc as (i & Hi & Hc).
    apply in_flat_map in Hc. destruct Hc as (j & Hj & Hc).
    exists t, i, j. repeat split; try assumption.
    destruct (sample_conflict mission schedule B t i j) as [c' |]; [| destruct Hc].
    destruct Hc as [-> | []]. reflexivity.
  - intros (t & i & j & Ht & Hi & Hj & Hc).
    apply in_flat_map. exists t. split; [exact Ht |].
    apply in_flat_map. exists i. split; [exact Hi |].
    apply in_flat_map. exists j. split; [exact Hj |].
    rewrite Hc. left; reflexivity.
Qed.

Lemma temporal_records_shape (mission : Mission) (schedule : Schedule)
    (tw : TimeWindow) (B : R) (l : list Conflict) (c : Conflict) :
  check_temporal_conflict mission schedule tw B = Some l -> In c l ->
  exists lo hi t i j,
    py_min_of (map wp_time (sched_waypoints schedule)) = Some lo /\
    py_max_of (map wp_time (sched_waypoints schedule)) = Some hi /\
    In t (sample_instants tw lo hi) /\
    In i (segment_indices (waypoints mission)) /\
    In j (segment_indices (sched_waypoints schedule)) /\
    sample_conflict mission schedule B t i j = Some c.
Proof.
  rewrite temporal_all_pairs.
  destruct (py_min_of _) as [lo |]; [| discriminate].
  destruct (py_max_of _) as [hi |]; [| discriminate].
  remember (sample_instants tw lo hi) as ts eqn:Hts.
  destruct (_ || _); intros H; injection H as Hl; subst l; [intros [] |].
  intros Hc. apply dedup_sound in Hc.
  destruct Hc as [Hc | Hc]; [destruct Hc |].
  apply sample_conflicts_in in Hc.
  destruct Hc as (t & i & j & Ht & Hi & Hj & Hc).
  exists lo, hi, t, i, j. subst ts. repeat split; assumption || reflexivity.
Qed.

Lemma sample_conflict_shape (mission : Mission) (schedule : Schedule) (B t : R)
    (i j : nat) (c : Conflict) :
  sample_conflict mission schedule B t i j = Some c ->
  c_time c = Some t /\
  c_drone_id c = Some (get_drone_id schedule) /\
  c_location c =
    interpolate_position (wp_at (waypoints mission) i)
      (wp_at (waypoints mission) (S i)) t /\
  c_distance c =
    norm (vsub (c_location c)
            (interpolate_position (wp_at (sched_waypoints schedule) j)
               (wp_at (sched_waypoints schedule) (S j)) t)) /\
  c_distance c < B /\
  contains_time (waypoints mission) i t = true /\
  contains_time (sched_waypoints schedule) j t = true.
Proof.
  unfold sample_conflict.
  destruct (contains_time (waypoints mission) i t); [| discriminate].
  destruct (contains_time (sched_waypoints schedule) j t); [| discriminate].
  cbn [andb].
  destruct (Rltb _ B) eqn:Hd; [| discriminate].
  intros H; injection H as <-. cbn. apply Rltb_spec in Hd. auto 10.
Qed.

Lemma safety_fold_inversion (mission : Mission) (B : R)
    (schedules : list Schedule) (acc out : list Conflict) :
  fold_left (safety_step mission B) schedules (Some acc) = Some out ->
  exists per,
    Forall2 (checks_return mission B) schedules per /\
    out = acc ++ flat_map tagged_records (combine schedules per).
Proof.
  revert acc; induction schedules as [| s ss IH]; intros acc.
  - cbn. intros H; injection H as <-. exists []. split; [constructor |].
    rewrite app_nil_r; reflexivity.
  - cbn [fold_left safety_step].
    destruct (check_spatial_conflict mission s (time_window mission) B)
      as [sp |] eqn:Hsp; [| rewrite safety_fold_none; discriminate].
    destruct (check_temporal_conflict mission s (time_window mission) B)
      as [tp |] eqn:Htp; [| rewrite safety_fold_none; discriminate].
    intros H. apply IH in H. destruct H as (per & Hper & ->).
    exists ((sp, tp) :: per). split.
    + constructor; [split; assumption | exact Hper].
    + cbn [combine flat_map tagged_records]. rewrite <- app_assoc. reflexivity.
Qed.

Lemma safety_inversion (mission : Mission) (B : R)
    (schedules : list Schedule) (res : SafetyResult) :
  check_mission_safety mission schedules B = Some res ->
  exists per,
    Forall2 (checks_return mission B) schedules per /\
    details res = flat_map tagged_records (combine schedules per) /\
    (status res = "conflict detected"%string <-> details res <> []).
Proof.
  unfold check_mission_safety.
  destruct (fold_left _ _ _) as [out |] eqn:Hfold; [| discriminate].
  intros H; injection H as <-. cbn [status details].
  apply safety_fold_inversion in Hfold. destruct Hfold as (per & Hper & ->).
  exists per. cbn [app]. repeat split; try assumption;
    destruct (flat_map _ _); congruence.
Qed.

Lemma paired_checks (mission : Mission) (B B' : R) (schedules : list Schedule)
    (per per' : list (list Conflict * list Conflict)) s p :
  Forall2 (checks_return mission B) schedules per ->
  Forall2 (checks_return mission B') schedules per' ->
  In (s, p) (combine schedules per) ->
  exists p', In (s, p') (combine schedules per') /\
             checks_return mission B s p /\ checks_return mission B' s p'.
Proof.
  intros H; revert per'.
  induction H as [| s0 p0 ss per Hsp _ IH]; intros per' H' Hin; [destruct Hin |].
  inversion H' as [| s1 p1 ss1 per1 Hsp' Hrest]; subst.
  destruct Hin as [Heq | Hin].
  - injection Heq as <- <-. exists p1.
    split; [left; reflexivity | split; assumption].
  - destruct (IH per1 Hrest Hin) as (p' & Hin' & Hc & Hc').
    exists p'. split; [right; exact Hin' | split; assumption].
Qed.

Lemma status_of_details (mission : Mission) (schedules : list Schedule) (B : R)
    (res : SafetyResult) :
  check_mission_safety mission schedules B = Some res ->
  status res = match details res with
               | [] => "clear"%string
               | _ :: _ => "conflict detected"%string
               end.
Proof.
  unfold check_mission_safety.
  destruct (fold_left _ _ _); [| discriminate].
  intros H; injection H as <-. reflexivity.
Qed.

(** The identifier [schedule.get("drone_id", "unknown")] is the
    schedule's own when it has one. *)
Lemma schedule_identifier (s : Schedule) (c : Conflict) :
  c_drone_id c = Some (get_drone_id s) ->
  (forall id, drone_id s = Some id -> c_drone_id c = Some id) /\
  (drone_id s = None -> c_drone_id c = Some "unknown"%string).
Proof.
  unfold get_drone_id. intros ->.
  split; [intros id -> | intros ->]; reflexivity.
Qed.

Lemma checks_of_entry (mission : Mission) (B : R) (schedules : list Schedule)
    (per : list (list Conflict * list Conflict)) s p :
  Forall2 (checks_return mission B) schedules per ->
  In (s, p) (combine schedules per) -> checks_return mission B s p.
Proof.
  intros H Hin.
  destruct (paired_checks _ _ _ _ _ _ _ _ H H Hin) as (_ & _ & Hr & _).
  exact Hr.
Qed.

(** C1: whenever [check_mission_safety] returns, the status is
    "conflict detected" exactly when the details are non-empty and
    "clear" exactly when they are empty; the details are, schedule by
    schedule in input order, the tagged records of the spatial check
    (in segment-pair order) followed by the tagged records of the
    temporal check; every record carries its type tag and the
    identifier of the schedule it comes from: the schedule's drone_id
    when it has one, "unknown" otherwise. *)
Theorem check_mission_safety_details (mission : Mission)
    (schedules : list Schedule) (B : R) (res : SafetyResult) :
  check_mission_safety mission schedules B = Some res ->
  (status res = "conflict detected"%string <-> details res <> []) /\
  (status res = "clear"%string <-> details res = []) /\
  exists per,
    Forall2 (checks_return mission B) schedules per /\
    details res = flat_map tagged_records (combine schedules per) /\
    Forall (fun p => StronglySorted index_before (fst p)) per /\
    (forall s p c, In (s, p) (combine schedules per) ->
       (In c (map (tag_spatial s) (fst p)) ->
        c_type c = Some "spatial"%string /\
        (forall id, drone_id s = Some id -> c_drone_id c = Some id) /\
        (drone_id s = None -> c_drone_id c = Some "unknown"%string)) /\
       (In c (map tag_temporal (snd p)) ->
        c_type c = Some "temporal"%string /\
        (forall id, drone_id s = Some id -> c_drone_id c = Some id) /\
        (drone_id s = None -> c_drone_id c = Some "unknown"%string))).
Proof.
  intros Hres.
  pose proof (status_of_details _ _ _ _ Hres) as Hst.
  apply safety_inversion in Hres. destruct Hres as (per & Hper & Hdet & _).
  split; [| split].
  - rewrite Hst. destruct (details res); split; congruence.
  - rewrite Hst. destruct (details res); split; congruence.
  - exists per. split; [exact Hper |]. split; [exact Hdet |]. split.
    + clear Hdet. induction Hper as [| s p ss per [Hsp _] _ IH]; constructor.
      * apply (spatial_sorted _ _ _ _ _ Hsp).
      * exact IH.
    + intros s p c Hin. split; intros Hc; apply in_map_iff in Hc;
        destruct Hc as (c0 & <- & Hc0); (split; [reflexivity |]);
        apply schedule_identifier.
      * reflexivity.
      * cbn [tag_temporal set_type c_drone_id].
        destruct (checks_of_entry _ _ _ _ _ _ Hper Hin) as [_ Htp].
        destruct (temporal_records_shape _ _ _ _ _ _ Htp Hc0)
          as (lo & hi & t & i & j & _ & _ & _ & _ & _ & Hs).
        apply sample_conflict_shape in Hs. tauto.
Qed.

Lemma check_mission_safety_details_witness :
  exists res,
    check_mission_safety scenario_mission [scenario_other] 10 = Some res /\
    (status res = "conflict detected"%string <-> details res <> []) /\
    forall c, In c (details res) -> c_drone_id c = Some "drone_1"%string.
Proof.
  destruct (checks_defined scenario_mission 10 [scenario_other]) as [per0 Hper0];
    [constructor; [discriminate | constructor] |].
  pose proof (safety_result _ _ _ _ Hper0) as Hres.
  eexists. split; [exact Hres |].
  destruct (check_mission_safety_details scenario_mission [scenario_other] 10 _
              Hres) as (Hst & _ & per & Hper & Hdet & _ & Htag).
  split; [exact Hst |].
  intros c Hc. rewrite Hdet in Hc. apply in_flat_map in Hc.
  destruct Hc as ([s p] & Hin & Hc).
  assert (Hs : s = scenario_other).
  { destruct per as [| p0 per]; [destruct Hin |].
    destruct Hin as [Heq | []]. injection Heq as <- _. reflexivity. }
  subst s. destruct p as [sp' tp']. cbn [tagged_records] in Hc.
  destruct (Htag scenario_other (sp', tp') c Hin) as [Hsp Htp].
  apply in_app_or in Hc. destruct Hc as [Hc | Hc].
  - apply Hsp; [exact Hc | reflexivity].
  - apply Htp; [exact Hc | reflexivity].
Defined.

(** C6: when every other trajectory's time span misses the mission's
    time window, the result is "clear" with empty details, wherever
    the trajectories are in space. *)
Theorem disjoint_spans_clear (mission : Mission) (schedules : list Schedule)
    (B : R) :
  Forall (span_outside (time_window mission)) schedules ->
  check_mission_safety mission schedules B =
  Some {| status := "clear"; details := [] |}.
Proof.
  intros H. unfold check_mission_safety.
  assert (Hfold : fold_left (safety_step mission B) schedules (Some []) = Some []).
  { induction H as [| s ss Hs _ IH]; [reflexivity |].
    cbn [fold_left safety_step].
    rewrite (spatial_pruned mission s _ B Hs), (temporal_pruned mission s _ B Hs).
    exact IH. }
  rewrite Hfold. reflexivity.
Qed.

Lemma disjoint_spans_clear_witness :
  Forall (span_outside (time_window scenario_mission)) [night_other] /\
  check_mission_safety scenario_mission [night_other] 50 =
  Some {| status := "clear"; details := [] |}.
Proof.
  assert (H : Forall (span_outside (time_window scenario_mission)) [night_other]).
  { constructor; [| constructor].
    split; [discriminate |].
    right. repeat constructor; simpl; lra. }
  split; [exact H | exact (disjoint_spans_clear scenario_mission [night_other] 50 H)].
Defined.

(** ** Single-waypoint schedules *)





(** ** Evaluation on concrete inputs *)

Ltac rcmp_step :=
  match goal with
  | |- context [Rltb ?a ?b] =>
      first [rewrite (Rltb_true a b) by lra | rewrite (Rltb_false a b) by lra]
  | |- context [Rleb ?a ?b] =>
      first [rewrite (Rleb_true a b) by lra | rewrite (Rleb_false a b) by lra]
  | |- context [Reqb ?a ?b] =>
      first [rewrite (Reqb_true a b) by lra | rewrite (Reqb_false a b) by lra]
  | |- context [Rmax ?a ?b] =>
      first [rewrite (Rmax_left a b) by lra | rewrite (Rmax_right a b) by lra]
  | |- context [Rmin ?a ?b] =>
      first [rewrite (Rmin_left a b) by lra | rewrite (Rmin_right a b) by lra]
  end.

Ltac rcmp := repeat rcmp_step.

Lemma triple_eq (a b c a' b' c' : R) :
  a = a' -> b = b' -> c = c' -> (a, b, c) = (a', b', c').
Proof. intros -> -> ->; reflexivity. Qed.

Lemma norm_eq (a b c r : R) :
  0 <= r -> a * a + b * b + c * c = r * r -> norm (a, b, c) = r.
Proof.
  intros Hr H. unfold norm, dot. rewrite H. apply sqrt_square; exact Hr.
Qed.

(** Two segments with the same direction, offset by a vector
    perpendicular to it, are at the length of the offset. *)
Lemma closest_distance_offset (p1 p2 q1 q2 : Waypoint) :
  vsub q2 q1 = vsub p2 p1 ->
  dot (vsub p2 p1) (vsub p2 p1) <> 0 ->
  dot (vsub p2 p1) (vsub p1 q1) = 0 ->
  closest_distance_between_segments p1 p2 q1 q2 = norm (vsub p1 q1).
Proof.
  intros Hv Ha He. unfold closest_distance_between_segments.
  rewrite Hv, He.
  set (u := vsub p2 p1) in *. set (w := vsub p1 q1) in *.
  set (a := dot u u) in *.
  rewrite (Rltb_true (a * a - a * a) eps) by (pose proof eps_pos; lra).
  rewrite (Rltb_false a a) by lra.
  rewrite fdiv_nonzero by assumption.
  rewrite !clamp01_fin.
  replace (0 / a) with 0 by (field; assumption).
  rewrite Rmin_right, Rmax_left by lra.
  f_equal. destruct u as [[u0 u1] u2], w as [[w0 w1] w2].
  cbv [vadd smul vsub]. apply triple_eq; lra.
Qed.

Lemma scenario_distance :
  closest_distance_between_segments (0, 0, 0) (100, 0, 0) (0, 5, 0) (100, 5, 0)
  = 5.
Proof.
  rewrite closest_distance_offset.
  - cbv [vsub]. apply norm_eq; lra.
  - cbv [vsub]. apply triple_eq; lra.
  - cbv [vsub dot]. lra.
  - cbv [vsub dot]. lra.
Qed.

Lemma scenario_spatial (B : R) :
  check_spatial_conflict scenario_mission scenario_other (mkTw 0 10) B =
  Some (if Rltb 5 B then
          [spatial_record 0 0 5 (0, 0, 0) (100, 0, 0) 0 10 0 10]
        else []).
Proof.
  unfold check_spatial_conflict, scenario_mission, scenario_other.
  cbn [sched_waypoints waypoints map wp_time py_min_of py_max_of fold_left
       tw_start tw_end].
  rcmp. cbn [orb segment_indices List.length Nat.sub seq flat_map].
  unfold spatial_pair, position.
  cbn [wp_at nth wp_time wp_x wp_y wp_z].
  rcmp. rewrite scenario_distance.
  destruct (Rltb 5 B); reflexivity.
Qed.

Lemma scenario_sample_distance (B t : R) (i j : nat) (c : Conflict) :
  In i (segment_indices (waypoints scenario_mission)) ->
  In j (segment_indices (sched_waypoints scenario_other)) ->
  sample_conflict scenario_mission scenario_other B t i j = Some c ->
  c_distance c = 5.
Proof.
  intros Hi Hj Hc.
  cbn in Hi, Hj. destruct Hi as [<- | []], Hj as [<- | []].
  apply sample_conflict_shape in Hc.
  destruct Hc as (_ & _ & Hloc & Hdist & _).
  rewrite Hdist, Hloc.
  unfold interpolate_position, scenario_mission, scenario_other.
  cbn [waypoints sched_waypoints wp_at nth wp_time wp_x wp_y wp_z].
  rcmp. cbv [vsub]. apply norm_eq; lra.
Qed.

(** C2: on the scenario of the specification, buffer 10 gives
    "conflict detected" with a spatial record at distance 5, and
    buffer 4 gives "clear" with no record. *)
Theorem scenario_buffers :
  (exists res c,
     check_mission_safety scenario_mission [scenario_other] 10 = Some res /\
     status res = "conflict detected"%string /\
     In c (details res) /\
     c_type c = Some "spatial"%string /\
     c_distance c = 5) /\
  check_mission_safety scenario_mission [scenario_other] 4 =
  Some {| status := "clear"; details := [] |}.
Proof.
  split.
  - destruct (temporal_defined scenario_mission scenario_other
                (time_window scenario_mission) 10) as [tp Htp]; [discriminate |].
    pose proof (scenario_spatial 10) as Hsp.
    rewrite Rltb_true in Hsp by lra.
    eexists. eexists.
    split.
    + apply (safety_result scenario_mission 10 [scenario_other]
               [([spatial_record 0 0 5 (0, 0, 0) (100, 0, 0) 0 10 0 10], tp)]).
      constructor; [split; [exact Hsp | exact Htp] | constructor].
    + cbn [combine flat_map tagged_records map app status details].
      split; [reflexivity | split; [left; reflexivity | split; reflexivity]].
  - destruct (temporal_defined scenario_mission scenario_other
                (time_window scenario_mission) 4) as [tp Htp]; [discriminate |].
    assert (Hnil : tp = []).
    { destruct tp as [| c tp]; [reflexivity | exfalso].
      destruct (temporal_records_shape _ _ _ _ _ c Htp (or_introl eq_refl))
        as (lo & hi & t & i & j & _ & _ & _ & Hi & Hj & Hc).
      pose proof (scenario_sample_distance _ _ _ _ _ Hi Hj Hc) as Hd.
      apply sample_conflict_shape in Hc. lra. }
    subst tp.
    pose proof (scenario_spatial 4) as Hsp.
    rewrite Rltb_false in Hsp by lra.
    rewrite (safety_result scenario_mission 4 [scenario_other] [([], [])]).
    + reflexivity.
    + constructor; [split; [exact Hsp | exact Htp] | constructor].
Qed.

(** ** The spatial check and the time window *)


Lemma late_distance :
  closest_distance_between_segments (10, 0, 0) (20, 0, 0) (10, 1, 0) (20, 1, 0)
  = 1.
Proof.
  rewrite closest_distance_offset.
  - cbv [vsub]. apply norm_eq; lra.
  - cbv [vsub]. apply triple_eq; lra.
  - cbv [vsub dot]. lra.
  - cbv [vsub dot]. lra.
Qed.

Lemma late_spatial (tw : TimeWindow) :
  tw_start tw <= 20 -> 0 <= tw_end tw ->
  exists l,
    check_spatial_conflict late_mission late_other tw 10 = Some l /\
    In (spatial_record 1 1 1 (10, 0, 0) (20, 0, 0) 10 20 15 20) l.
Proof.
  intros Hs He.
  unfold check_spatial_conflict, late_mission, late_other.
  cbn [sched_waypoints waypoints map wp_time py_min_of py_max_of fold_left].
  rcmp. cbn [orb]. eexists. split; [reflexivity |].
  apply in_flat_map. exists 1%nat. split; [cbn; tauto |].
  apply in_flat_map. exists 1%nat. split; [cbn; tauto |].
  unfold spatial_pair, position.
  cbn [wp_at nth wp_time wp_x wp_y wp_z].
  rcmp. rewrite late_distance. rcmp. left; reflexivity.
Qed.



(** ** Growing the safety buffer *)

Lemma spatial_pair_monotone (mw sw : list WaypointDict) (B B' : R) (i j : nat) c :
  B <= B' -> In c (spatial_pair mw sw B i j) -> In c (spatial_pair mw sw B' i j).
Proof.
  intros HB. unfold spatial_pair.
  destruct (Rleb _ _); [| intros []].
  destruct (Rltb _ B) eqn:Hd; [| intros []].
  apply Rltb_spec in Hd. rewrite Rltb_true by lra. trivial.
Qed.

Lemma spatial_monotone (mission : Mission) (schedule : Schedule)
    (tw : TimeWindow) (B B' : R) (l l' : list Conflict) c :
  B <= B' ->
  check_spatial_conflict mission schedule tw B = Some l ->
  check_spatial_conflict mission schedule tw B' = Some l' ->
  In c l -> In c l'.
Proof.
  intros HB. unfold check_spatial_conflict.
  destruct (py_min_of _); [| discriminate].
  destruct (py_max_of _); [| discriminate].
  destruct (_ || _); intros H H'; injection H as <-; injection H' as <-;
    [trivial |].
  intros Hc. apply in_flat_map in Hc. destruct Hc as (i & Hi & Hc).
  apply in_flat_map in Hc. destruct Hc as (j & Hj & Hc).
  apply in_flat_map. exists i. split; [exact Hi |].
  apply in_flat_map. exists j. split; [exact Hj |].
  apply (spatial_pair_monotone _ _ B B'); assumption.
Qed.

Lemma sample_conflict_monotone (mission : Mission) (schedule : Schedule)
    (B B' t : R) (i j : nat) c :
  B <= B' ->
  sample_conflict mission schedule B t i j = Some c ->
  sample_conflict mission schedule B' t i j = Some c.
Proof.
  intros HB. unfold sample_conflict.
  destruct (_ && _); [| discriminate].
  destruct (Rltb _ B) eqn:Hd; [| discriminate].
  apply Rltb_spec in Hd. rewrite Rltb_true by lra. trivial.
Qed.

Lemma temporal_monotone_keys (mission : Mission) (schedule : Schedule)
    (tw : TimeWindow) (B B' : R) (l l' : list Conflict) c :
  B <= B' ->
  check_temporal_conflict mission schedule tw B = Some l ->
  check_temporal_conflict mission schedule tw B' = Some l' ->
  In c l ->
  exists c', In c' l' /\ record_key c' = record_key c /\
             c_drone_id c' = c_drone_id c.
Proof.
  intros HB Hl Hl' Hc.
  destruct (temporal_records_shape _ _ _ _ _ _ Hl Hc)
    as (lo & hi & t & i & j & Hlo & Hhi & Ht & Hi & Hj & Hs).
  pose proof (sample_conflict_monotone _ _ _ _ _ _ _ _ HB Hs) as Hs'.
  pose proof (sample_conflict_shape _ _ _ _ _ _ _ Hs) as (Htime & Hid & _).
  assert (Hkey : record_key c = Some (pos_key_of (c_location c) t))
    by (unfold record_key; rewrite Htime; reflexivity).
  assert (Hin' : In c (sample_conflicts mission schedule B'
                         (sample_instants tw lo hi)))
    by (apply sample_conflicts_in; exists t, i, j; auto).
  pose proof Hl' as Hshape.
  rewrite temporal_all_pairs, Hlo, Hhi in Hl'.
  rewrite temporal_all_pairs, Hlo, Hhi in Hl.
  remember (sample_instants tw lo hi) as ts eqn:Hts in *.
  destruct (_ || _).
  - injection Hl as <-. destruct Hc.
  - injection Hl' as Hl'.
    destruct (dedup_covers _ _ _ Hin' Hkey) as (c' & Hc' & Hk').
    rewrite Hl' in Hc'.
    exists c'. split; [exact Hc' | split; [congruence |]].
    destruct (temporal_records_shape _ _ _ _ _ _ Hshape Hc')
      as (_ & _ & t' & i' & j' & _ & _ & _ & _ & _ & Hs'').
    apply sample_conflict_shape in Hs''. destruct Hs'' as (_ & Hid' & _).
    congruence.
Qed.

Lemma tagged_cases (s : Schedule) (p : list Conflict * list Conflict) c :
  In c (tagged_records (s, p)) ->
  (c_type c = Some "spatial"%string /\ In c (map (tag_spatial s) (fst p))) \/
  (c_type c = Some "temporal"%string /\ In c (map tag_temporal (snd p))).
Proof.
  destruct p as [sp tp]. cbn [tagged_records fst snd]. intros H.
  apply in_app_or in H. destruct H as [H | H]; [left | right]; split; try exact H;
    apply in_map_iff in H; destruct H as (c0 & <- & _); reflexivity.
Qed.

Lemma tagged_record_monotone (mission : Mission) (B B' : R) (s : Schedule)
    (p p' : list Conflict * list Conflict) c :
  B <= B' ->
  checks_return mission B s p -> checks_return mission B' s p' ->
  In c (tagged_records (s, p)) ->
  (c_type c = Some "spatial"%string /\ In c (tagged_records (s, p'))) \/
  (c_type c = Some "temporal"%string /\
   exists c', In c' (tagged_records (s, p')) /\
              c_type c' = Some "temporal"%string /\
              c_drone_id c' = c_drone_id c /\
              record_key c' = record_key c).
Proof.
  intros HB [Hsp Htp] [Hsp' Htp'] Hc.
  destruct p as [sp tp], p' as [sp' tp']. cbn [fst snd] in *.
  apply tagged_cases in Hc. cbn [fst snd] in Hc.
  destruct Hc as [[Hty Hc] | [Hty Hc]]; [left | right]; (split; [exact Hty |]).
  - apply in_map_iff in Hc. destruct Hc as (c0 & <- & Hc0).
    cbn [tagged_records]. apply in_or_app. left. apply in_map.
    apply (spatial_monotone _ _ _ _ _ _ _ _ HB Hsp Hsp' Hc0).
  - apply in_map_iff in Hc. destruct Hc as (c0 & <- & Hc0).
    destruct (temporal_monotone_keys _ _ _ _ _ _ _ _ HB Htp Htp' Hc0)
      as (c' & Hc' & Hk & Hid).
    exists (tag_temporal c'). split; [| split; [reflexivity | split]].
    + cbn [tagged_records]. apply in_or_app. right. apply in_map. exact Hc'.
    + exact Hid.
    + exact Hk.
Qed.

(** C9, as the code has it: for buffers B <= B', every spatial record
    of the result at B is in the result at B'; every temporal record at
    B has at B' a temporal record of the same drone with the same
    deduplication key (rounded position and time); and "conflict
    detected" at B is "conflict detected" at B'. *)
Theorem buffer_monotone (mission : Mission) (schedules : list Schedule)
    (B B' : R) (res res' : SafetyResult) :
  B <= B' ->
  check_mission_safety mission schedules B = Some res ->
  check_mission_safety mission schedules B' = Some res' ->
  (forall c, In c (details res) -> c_type c = Some "spatial"%string ->
             In c (details res')) /\
  (forall c, In c (details res) -> c_type c = Some "temporal"%string ->
             exists c', In c' (details res') /\
                        c_type c' = Some "temporal"%string /\
                        c_drone_id c' = c_drone_id c /\
                        record_key c' = record_key c) /\
  (status res = "conflict detected"%string ->
   status res' = "conflict detected"%string).
Proof.
  intros HB Hres Hres'.
  apply safety_inversion in Hres, Hres'.
  destruct Hres as (per & Hper & Hdet & Hst).
  destruct Hres' as (per' & Hper' & Hdet' & Hst').
  assert (Hstep : forall c, In c (details res) ->
    (c_type c = Some "spatial"%string /\ In c (details res')) \/
    (c_type c = Some "temporal"%string /\
     exists c', In c' (details res') /\
                c_type c' = Some "temporal"%string /\
                c_drone_id c' = c_drone_id c /\
                record_key c' = record_key c)).
  { intros c Hc. rewrite Hdet in Hc. apply in_flat_map in Hc.
    destruct Hc as ([s p] & Hin & Hc).
    destruct (paired_checks _ _ _ _ _ _ _ _ Hper Hper' Hin) as (p' & Hin' & Hr & Hr').
    destruct (tagged_record_monotone _ _ _ _ _ _ _ HB Hr Hr' Hc)
      as [[Hty Hc'] | [Hty (c' & Hc' & Hrest)]]; [left | right];
      (split; [exact Hty |]).
    - rewrite Hdet'. apply in_flat_map. exists (s, p'). split; assumption.
    - exists c'. split; [| exact Hrest].
      rewrite Hdet'. apply in_flat_map. exists (s, p'). split; assumption. }
  split; [| split].
  - intros c Hc Hty. destruct (Hstep c Hc) as [[_ H] | [Hty' _]];
      [exact H | congruence].
  - intros c Hc Hty. destruct (Hstep c Hc) as [[Hty' _] | [_ H]];
      [congruence | exact H].
  - intros Hs. apply Hst in Hs. apply Hst'.
    destruct (details res) as [| c rest]; [congruence |].
    destruct (Hstep c (or_introl eq_refl)) as [[_ H] | [_ (c' & H & _)]];
      intros Habs; rewrite Habs in H; destruct H.
Qed.

Lemma sample_conflicts_each (mission : Mission) (schedule : Schedule) (B : R)
    (time_steps : list R) :
  sample_conflicts mission schedule B time_steps =
  flat_map (fun t => sample_conflicts mission schedule B [t]) time_steps.
Proof.
  unfold sample_conflicts. apply flat_map_ext. intros t.
  cbn [flat_map]. rewrite app_nil_r. reflexivity.
Qed.

Lemma dedup_first_only (c : Conflict) (l : list Conflict) (k : PosKey) :
  record_key c = Some k ->
  Forall (fun c' => record_key c' = Some k) l ->
  fold_left dedup_step (c :: l) ([], []) = ([k], [c]).
Proof.
  intros Hk Hl. cbn [fold_left]. unfold dedup_step at 2. rewrite Hk. cbn.
  induction Hl as [| c' l Hk' _ IH]; [reflexivity |].
  cbn [fold_left]. unfold dedup_step at 2. rewrite Hk'. cbn [fst].
  replace (key_in k [k]) with true
    by (symmetry; apply key_in_spec; left; reflexivity).
  exact IH.
Qed.

(** *** The hovering mission *)

Lemma linspace_at_zero : linspace 0 0 10 = repeat 0 10.
Proof.
  unfold linspace. cbn [seq map Nat.eqb Nat.sub repeat INR].
  repeat (apply (f_equal2 cons); [lra |]). reflexivity.
Qed.

Lemma instants_at_zero :
  sample_instants (mkTw 0 0) 0 0 = repeat 0 10.
Proof.
  unfold sample_instants. cbn [tw_start tw_end]. rcmp. apply linspace_at_zero.
Qed.

Lemma hover_samples (B : R) :
  3 < B ->
  sample_conflicts hover_mission near_far_other B [0] =
  if Rltb 8 B then
    [temporal_record near_far_other 0 (0, 0, 0) 8;
     temporal_record near_far_other 0 (0, 0, 0) 3]
  else [temporal_record near_far_other 0 (0, 0, 0) 3].
Proof.
  intros HB.
  assert (H8 : norm (vsub (0, 0, 0) (0, 8, 0)) = 8)
    by (cbv [vsub]; apply norm_eq; lra).
  assert (H3 : norm (vsub (0, 0, 0) (0, 3, 0)) = 3)
    by (cbv [vsub]; apply norm_eq; lra).
  unfold sample_conflicts, sample_conflict, contains_time, interpolate_position,
    hover_mission, near_far_other.
  cbn [waypoints sched_waypoints segment_indices List.length Nat.sub seq
       flat_map wp_at nth wp_time wp_x wp_y wp_z].
  rcmp. cbn [andb]. rewrite H8, H3. rcmp.
  destruct (Rltb 8 B); reflexivity.
Qed.

Lemma hover_temporal (B : R) :
  3 < B ->
  check_temporal_conflict hover_mission near_far_other (mkTw 0 0) B =
  Some [temporal_record near_far_other 0 (0, 0, 0) (if Rltb 8 B then 8 else 3)].
Proof.
  intros HB. rewrite temporal_all_pairs.
  unfold near_far_other at 1 2.
  cbn [sched_waypoints map wp_time py_min_of py_max_of fold_left tw_start tw_end].
  rcmp. cbn [orb].
  rewrite instants_at_zero, sample_conflicts_each.
  cbn [repeat flat_map]. rewrite (hover_samples B HB).
  destruct (Rltb 8 B); cbn [app];
    (erewrite dedup_first_only;
     [reflexivity | reflexivity | repeat constructor]).
Qed.

Lemma hover_result (B : R) :
  3 < B ->
  exists sp,
    check_mission_safety hover_mission [near_far_other] B =
    Some {| status := "conflict detected";
            details :=
              map (tag_spatial near_far_other) sp ++
              [tag_temporal
                 (temporal_record near_far_other 0 (0, 0, 0)
                    (if Rltb 8 B then 8 else 3))] |}.
Proof.
  intros HB.
  destruct (spatial_defined hover_mission near_far_other
              (time_window hover_mission) B) as [sp Hsp]; [discriminate |].
  exists sp.
  rewrite (safety_result hover_mission B [near_far_other]
             [(sp, [temporal_record near_far_other 0 (0, 0, 0)
                      (if Rltb 8 B then 8 else 3)])]).
  - cbn [combine flat_map tagged_records map]. rewrite app_nil_r.
    destruct (map (tag_spatial near_far_other) sp); reflexivity.
  - constructor; [| constructor].
    split; [exact Hsp | exact (hover_temporal B HB)].
Qed.

(** C9, as stated, fails: with buffer 5 the hovering mission gets the
    temporal record at distance 3; with buffer 10 the record at
    distance 8 comes first at the same instant and position, and the
    record at distance 3 is suppressed as a duplicate. *)
Lemma records_not_monotone_in_buffer :
  exists res res' c,
    5 <= 10 /\
    check_mission_safety hover_mission [near_far_other] 5 = Some res /\
    check_mission_safety hover_mission [near_far_other] 10 = Some res' /\
    In c (details res) /\ ~ In c (details res').
Proof.
  destruct (hover_result 5) as [sp Hres]; [lra |].
  destruct (hover_result 10) as [sp' Hres']; [lra |].
  rewrite Rltb_false in Hres by lra. rewrite Rltb_true in Hres' by lra.
  eexists; eexists.
  exists (tag_temporal (temporal_record near_far_other 0 (0, 0, 0) 3)).
  split; [lra |]. split; [exact Hres |]. split; [exact Hres' |].
  cbn [details]. split.
  - apply in_or_app. right. left. reflexivity.
  - intros H. apply in_app_or in H. destruct H as [H | [H | []]].
    + apply in_map_iff in H. destruct H as (c0 & H & _).
      apply (f_equal c_type) in H. discriminate H.
    + apply (f_equal c_distance) in H. cbn in H. lra.
Qed.

Lemma buffer_monotone_witness :
  exists res res',
    5 <= 10 /\
    check_mission_safety hover_mission [near_far_other] 5 = Some res /\
    check_mission_safety hover_mission [near_far_other] 10 = Some res' /\
    (status res = "conflict detected"%string ->
     status res' = "conflict detected"%string).
Proof.
  destruct (hover_result 5) as [sp Hres]; [lra |].
  destruct (hover_result 10) as [sp' Hres']; [lra |].
  assert (HB : 5 <= 10) by lra.
  eexists; eexists.
  split; [exact HB |]. split; [exact Hres |]. split; [exact Hres' |].
  exact (proj2 (proj2 (buffer_monotone hover_mission [near_far_other] 5 10
                         _ _ HB Hres Hres'))).
Defined.

(** ** Segment lookup in the temporal check *)

(** *** On the input where a zero-duration mission segment jumps *)

Lemma jump_samples :
  sample_conflicts jump_mission jump_other 10 [0] =
  [temporal_record jump_other 0 (100, 0, 0) 0].
Proof.
  assert (Hfar : norm (vsub (0, 0, 0) (100, 0, 0)) = 100)
    by (cbv [vsub]; apply norm_eq; lra).
  assert (Hnear : norm (vsub (100, 0, 0) (100, 0, 0)) = 0)
    by (cbv [vsub]; apply norm_eq; lra).
  unfold sample_conflicts, sample_conflict, contains_time, interpolate_position,
    jump_mission, jump_other.
  cbn [waypoints sched_waypoints segment_indices List.length Nat.sub seq
       flat_map wp_at nth wp_time wp_x wp_y wp_z].
  rcmp. cbn [andb]. rewrite ?Hfar, ?Hnear. rcmp. reflexivity.
Qed.

Lemma jump_temporal :
  check_temporal_conflict jump_mission jump_other (mkTw 0 0) 10 =
  Some [temporal_record jump_other 0 (100, 0, 0) 0].
Proof.
  rewrite temporal_all_pairs.
  unfold jump_other at 1 2.
  cbn [sched_waypoints map wp_time py_min_of py_max_of fold_left tw_start tw_end].
  rcmp. cbn [orb].
  rewrite instants_at_zero, sample_conflicts_each.
  cbn [repeat flat_map]. rewrite jump_samples. cbn [app].
  erewrite dedup_first_only; [reflexivity | reflexivity | repeat constructor].
Qed.

Lemma jump_first_match_step (st : TemporalState) :
  temporal_outer_first_match jump_mission jump_other 10 st 0 = st.
Proof.
  assert (Hfar : norm (vsub (0, 0, 0) (100, 0, 0)) = 100)
    by (cbv [vsub]; apply norm_eq; lra).
  unfold temporal_outer_first_match, first_segment, contains_time,
    jump_mission, jump_other.
  cbn [waypoints sched_waypoints segment_indices List.length Nat.sub seq
       find wp_at nth wp_time].
  rcmp. cbn [andb].
  unfold temporal_inner, contains_time, interpolate_position.
  cbn [sched_waypoints wp_at nth wp_time wp_x wp_y wp_z].
  rcmp. cbn [andb]. rewrite ?Hfar. rcmp. reflexivity.
Qed.

Lemma jump_first_match :
  check_temporal_conflict_first_match jump_mission jump_other (mkTw 0 0) 10 =
  Some [].
Proof.
  unfold check_temporal_conflict_first_match.
  unfold jump_other at 1 2.
  cbn [sched_waypoints map wp_time py_min_of py_max_of fold_left tw_start tw_end].
  rcmp. cbn [orb].
  rewrite linspace_at_zero. cbn [repeat fold_left].
  rewrite !jump_first_match_step. reflexivity.
Qed.

(** C5, as stated, fails: on [jump_mission] the mission segments 0 and
    1 both contain the sample instant 0; the first is 100 away from the
    other drone and yields nothing, the second is at distance 0 and
    yields a record, which a first-match lookup would not produce. *)
Lemma first_match_refuted :
  check_temporal_conflict jump_mission jump_other
    (time_window jump_mission) 10 =
    Some [temporal_record jump_other 0 (100, 0, 0) 0] /\
  check_temporal_conflict_first_match jump_mission jump_other
    (time_window jump_mission) 10 = Some [] /\
  check_temporal_conflict jump_mission jump_other
    (time_window jump_mission) 10 <>
  check_temporal_conflict_first_match jump_mission jump_other
    (time_window jump_mission) 10.
Proof.
  change (time_window jump_mission) with (mkTw 0 0).
  rewrite jump_temporal, jump_first_match.
  repeat split. discriminate.
Qed.

(** *** What every containing pair contributes *)

Lemma segment_index_bound (wps : list WaypointDict) (i : nat) :
  In i (segment_indices wps) -> (S i < List.length wps)%nat.
Proof. unfold segment_indices. intros H. apply in_seq in H. lia. Qed.

(** C5, as the code has it: when the whole-trajectory prune lets the
    schedule through, the records returned are, in loop order, the
    records of all triples (sample instant, mission segment, schedule
    segment) passed through the deduplication; every record returned
    comes from a mission segment and a schedule segment that both
    contain its instant; and every mission segment containing a sample
    instant, paired with every schedule segment containing it and
    closer than the buffer there, has among the records returned one
    with its rounded (position, time) key, the first segment or not. *)
Theorem temporal_segment_lookup (mission : Mission) (schedule : Schedule)
    (tw : TimeWindow) (B : R) (l : list Conflict) :
  check_temporal_conflict mission schedule tw B = Some l ->
  exists lo hi,
    py_min_of (map wp_time (sched_waypoints schedule)) = Some lo /\
    py_max_of (map wp_time (sched_waypoints schedule)) = Some hi /\
    (Rltb hi (tw_start tw) || Rltb (tw_end tw) lo = true -> l = []) /\
    (Rltb hi (tw_start tw) || Rltb (tw_end tw) lo = false ->
     l = snd (fold_left dedup_step
                (sample_conflicts mission schedule B (sample_instants tw lo hi))
                ([], []))) /\
    (forall c, In c l ->
       exists t i j,
         In t (sample_instants tw lo hi) /\
         In i (segment_indices (waypoints mission)) /\
         In j (segment_indices (sched_waypoints schedule)) /\
         contains_time (waypoints mission) i t = true /\
         contains_time (sched_waypoints schedule) j t = true /\
         sample_conflict mission schedule B t i j = Some c) /\
    (Rltb hi (tw_start tw) || Rltb (tw_end tw) lo = false ->
     forall t i j,
       In t (sample_instants tw lo hi) ->
       In i (segment_indices (waypoints mission)) ->
       In j (segment_indices (sched_waypoints schedule)) ->
       contains_time (waypoints mission) i t = true ->
       contains_time (sched_waypoints schedule) j t = true ->
       let pos_m := interpolate_position (wp_at (waypoints mission) i)
                      (wp_at (waypoints mission) (S i)) t in
       let pos_s := interpolate_position (wp_at (sched_waypoints schedule) j)
                      (wp_at (sched_waypoints schedule) (S j)) t in
       norm (vsub pos_m pos_s) < B ->
       exists c', In c' l /\ record_key c' = Some (pos_key_of pos_m t)).
Proof.
  intros Hl. pose proof Hl as Hshape.
  rewrite temporal_all_pairs in Hl.
  destruct (py_min_of _) as [lo |] eqn:Hlo; [| discriminate].
  destruct (py_max_of _) as [hi |] eqn:Hhi; [| discriminate].
  exists lo, hi. split; [reflexivity |]. split; [reflexivity |].
  remember (sample_instants tw lo hi) as ts eqn:Hts.
  split; [| split; [| split]].
  - intros Hp. rewrite Hp in Hl. injection Hl as Hl. congruence.
  - intros Hp. rewrite Hp in Hl. injection Hl as Hl. congruence.
  - intros c Hc.
    destruct (temporal_records_shape _ _ _ _ _ _ Hshape Hc)
      as (lo' & hi' & t & i & j & Hlo' & Hhi' & Ht & Hi & Hj & Hs).
    assert (lo' = lo) by congruence. assert (hi' = hi) by congruence.
    subst lo' hi'. rewrite <- Hts in Ht.
    pose proof (sample_conflict_shape _ _ _ _ _ _ _ Hs)
      as (_ & _ & _ & _ & _ & Hcm & Hcs).
    exists t, i, j. auto 10.
  - intros Hp. rewrite Hp in Hl. injection Hl as Hl.
    intros t i j Ht Hi Hj Hcm Hcs pos_m pos_s Hd.
    set (c := temporal_record schedule t pos_m (norm (vsub pos_m pos_s))).
    assert (Hs : sample_conflict mission schedule B t i j = Some c).
    { unfold sample_conflict. rewrite Hcm, Hcs. cbn [andb].
      fold pos_m pos_s. rewrite Rltb_true by exact Hd. reflexivity. }
    assert (Hin : In c (sample_conflicts mission schedule B ts))
      by (apply sample_conflicts_in; exists t, i, j; auto).
    destruct (dedup_covers _ c (pos_key_of pos_m t) Hin eq_refl)
      as (c' & Hc' & Hk).
    exists c'. split; [rewrite <- Hl; exact Hc' | exact Hk].
Qed.

Lemma temporal_segment_lookup_witness :
  exists t i j,
    contains_time (waypoints jump_mission) i t = true /\
    contains_time (sched_waypoints jump_other) j t = true /\
    sample_conflict jump_mission jump_other 10 t i j =
      Some (temporal_record jump_other 0 (100, 0, 0) 0).
Proof.
  destruct (temporal_segment_lookup jump_mission jump_other (mkTw 0 0) 10 _
              jump_temporal) as (lo & hi & _ & _ & _ & _ & Hsound & _).
  destruct (Hsound _ (or_introl eq_refl))
    as (t & i & j & _ & _ & _ & Hcm & Hcs & Hs).
  exists t, i, j. auto.
Defined.

(** * Further properties of the engine *)

(** ** What the records of the two checks hold *)

Lemma norm_nonneg (p : Waypoint) : 0 <= norm p.
Proof. unfold norm. apply sqrt_pos. Qed.

Lemma closest_distance_nonneg (p1 p2 q1 q2 : Waypoint) :
  0 <= closest_distance_between_segments p1 p2 q1 q2.
Proof.
  unfold closest_distance_between_segments.
  destruct (if Rltb _ eps then _ else _). apply norm_nonneg.
Qed.

Lemma spatial_pair_facts (mw sw : list WaypointDict) (B : R) (i j : nat) c :
  In c (spatial_pair mw sw B i j) ->
  c = spatial_record i j
        (closest_distance_between_segments
           (position (wp_at mw i)) (position (wp_at mw (S i)))
           (position (wp_at sw j)) (position (wp_at sw (S j))))
        (position (wp_at mw i)) (position (wp_at mw (S i)))
        (wp_time (wp_at mw i)) (wp_time (wp_at mw (S i)))
        (wp_time (wp_at sw j)) (wp_time (wp_at sw (S j))) /\
  Rmax (wp_time (wp_at mw i)) (wp_time (wp_at sw j)) <=
  Rmin (wp_time (wp_at mw (S i))) (wp_time (wp_at sw (S j))) /\
  0 <= c_distance c < B.
Proof.
  unfold spatial_pair.
  destruct (Rleb _ _) eqn:Ht; [| intros []].
  destruct (Rltb _ B) eqn:Hd; [| intros []].
  intros [<- | []]. apply Rleb_spec in Ht. apply Rltb_spec in Hd.
  split; [reflexivity |]. split; [exact Ht |].
  unfold spatial_record, position; cbn [c_distance].
  split; [apply closest_distance_nonneg | exact Hd].
Qed.

Lemma spatial_records_in (mission : Mission) (schedule : Schedule)
    (tw : TimeWindow) (B : R) (l : list Conflict) c :
  check_spatial_conflict mission schedule tw B = Some l -> In c l ->
  exists i j,
    In i (segment_indices (waypoints mission)) /\
    In j (segment_indices (sched_waypoints schedule)) /\
    In c (spatial_pair (waypoints mission) (sched_waypoints schedule) B i j).
Proof.
  unfold check_spatial_conflict.
  destruct (py_min_of _); [| discriminate].
  destruct (py_max_of _); [| discriminate].
  destruct (_ || _); intros H; injection H as <-; [intros [] |].
  intros Hc. apply in_flat_map in Hc. destruct Hc as (i & Hi & Hc).
  apply in_flat_map in Hc. destruct Hc as (j & Hj & Hc).
  exists i, j. auto.
Qed.

(** X6: every record of the spatial check names two segments that
    exist, (i, i+1) of the mission and (j, j+1) of the schedule; its
    distance is the kernel's value for them, non-negative and below the
    buffer; its location is the midpoint of the mission segment; its
    time range is the non-empty intersection of the two segments' time
    spans; and it has no time, drone or type key yet. *)
Theorem spatial_record_facts (mission : Mission) (schedule : Schedule)
    (tw : TimeWindow) (B : R) (l : list Conflict) (c : Conflict) :
  check_spatial_conflict mission schedule tw B = Some l -> In c l ->
  exists i j,
    (S i < List.length (waypoints mission))%nat /\
    (S j < List.length (sched_waypoints schedule))%nat /\
    c_segment_mission c = Some (i, S i) /\
    c_segment_schedule c = Some (j, S j) /\
    c_distance c =
      closest_distance_between_segments
        (position (wp_at (waypoints mission) i))
        (position (wp_at (waypoints mission) (S i)))
        (position (wp_at (sched_waypoints schedule) j))
        (position (wp_at (sched_waypoints schedule) (S j))) /\
    0 <= c_distance c < B /\
    c_location c =
      ((wp_x (wp_at (waypoints mission) i) +
        wp_x (wp_at (waypoints mission) (S i))) / 2,
       (wp_y (wp_at (waypoints mission) i) +
        wp_y (wp_at (waypoints mission) (S i))) / 2,
       (wp_z (wp_at (waypoints mission) i) +
        wp_z (wp_at (waypoints mission) (S i))) / 2) /\
    (exists a b,
       c_time_range c = Some (a, b) /\ a <= b /\
       a = Rmax (wp_time (wp_at (waypoints mission) i))
                (wp_time (wp_at (sched_waypoints schedule) j)) /\
       b = Rmin (wp_time (wp_at (waypoints mission) (S i)))
                (wp_time (wp_at (sched_waypoints schedule) (S j)))) /\
    c_time c = None /\ c_drone_id c = None /\ c_type c = None.
Proof.
  intros Hl Hc.
  destruct (spatial_records_in _ _ _ _ _ _ Hl Hc) as (i & j & Hi & Hj & Hp).
  apply segment_index_bound in Hi, Hj.
  destruct (spatial_pair_facts _ _ _ _ _ _ Hp) as (Hrec & Ht & Hd).
  exists i, j. split; [exact Hi |]. split; [exact Hj |].
  rewrite Hrec in Hd |- *. unfold spatial_record, position in *.
  cbn [c_segment_mission c_segment_schedule c_distance c_location
       c_time_range c_time c_drone_id c_type] in *.
  repeat split; try reflexivity; try apply Hd.
  eexists; eexists. split; [reflexivity |]. split; [exact Ht |].
  split; reflexivity.
Qed.

Lemma spatial_record_facts_witness :
  exists l c i j,
    check_spatial_conflict late_mission late_other (mkTw 0 5) 10 = Some l /\
    In c l /\
    c_segment_mission c = Some (i, S i) /\
    c_segment_schedule c = Some (j, S j) /\
    0 <= c_distance c < 10.
Proof.
  destruct (late_spatial (mkTw 0 5)) as (l & Hl & Hin); [cbn; lra | cbn; lra |].
  destruct (spatial_record_facts late_mission late_other (mkTw 0 5) 10 l _ Hl Hin)
    as (i & j & _ & _ & Hm & Hs & _ & Hd & _).
  exists l, (spatial_record 1 1 1 (10, 0, 0) (20, 0, 0) 10 20 15 20), i, j.
  repeat split; try assumption; apply Hd.
Defined.






(** ** Buffers that admit nothing *)

Lemma spatial_nothing_below_zero (mission : Mission) (schedule : Schedule)
    (tw : TimeWindow) (B : R) (l : list Conflict) :
  B <= 0 -> check_spatial_conflict mission schedule tw B = Some l -> l = [].
Proof.
  intros HB Hl. destruct l as [| c l]; [reflexivity | exfalso].
  destruct (spatial_records_in _ _ _ _ _ c Hl (or_introl eq_refl))
    as (i & j & _ & _ & Hp).
  apply spatial_pair_facts in Hp. lra.
Qed.

Lemma temporal_nothing_below_zero (mission : Mission) (schedule : Schedule)
    (tw : TimeWindow) (B : R) (l : list Conflict) :
  B <= 0 -> check_temporal_conflict mission schedule tw B = Some l -> l = [].
Proof.
  intros HB Hl. destruct l as [| c l]; [reflexivity | exfalso].
  destruct (temporal_records_shape _ _ _ _ _ c Hl (or_introl eq_refl))
    as (lo & hi & t & i & j & _ & _ & _ & _ & _ & Hs).
  apply sample_conflict_shape in Hs.
  destruct Hs as (_ & _ & _ & Hd & Hlt & _).
  pose proof (norm_nonneg (vsub (c_location c)
    (interpolate_position (wp_at (sched_waypoints schedule) j)
       (wp_at (sched_waypoints schedule) (S j)) t))).
  lra.
Qed.

(** X8: with a safety buffer that is zero or negative no distance is
    below it: whenever [check_mission_safety] returns, the result is
    "clear" with empty details, even against a drone flying the
    mission's own track. *)
Theorem nonpositive_buffer_clear (mission : Mission)
    (schedules : list Schedule) (B : R) (res : SafetyResult) :
  B <= 0 ->
  check_mission_safety mission schedules B = Some res ->
  res = {| status := "clear"; details := [] |}.
Proof.
  intros HB Hres.
  pose proof (status_of_details _ _ _ _ Hres) as Hst.
  apply safety_inversion in Hres. destruct Hres as (per & Hper & Hdet & _).
  assert (Hnil : flat_map tagged_records (combine schedules per) = []).
  { clear Hdet. induction Hper as [| s [sp tp] ss per [Hsp Htp] _ IH];
      [reflexivity |].
    cbn [combine flat_map tagged_records fst snd] in *.
    rewrite (spatial_nothing_below_zero _ _ _ _ _ HB Hsp).
    rewrite (temporal_nothing_below_zero _ _ _ _ _ HB Htp).
    exact IH. }
  rewrite Hnil in Hdet. rewrite Hdet in Hst.
  destruct res as [st det]. cbn [status details] in *. subst. reflexivity.
Qed.

Lemma nonpositive_buffer_clear_witness :
  exists res,
    check_mission_safety scenario_mission
      [mkSchedule (Some "twin"%string) (waypoints scenario_mission)] 0 = Some res /\
    res = {| status := "clear"; details := [] |}.
Proof.
  destruct (safety_defined scenario_mission
              [mkSchedule (Some "twin"%string) (waypoints scenario_mission)] 0)
    as [res Hres]; [constructor; [discriminate | constructor] |].
  exists res. split; [exact Hres |].
  apply (nonpositive_buffer_clear scenario_mission
           [mkSchedule (Some "twin"%string) (waypoints scenario_mission)] 0 res);
    [lra | exact Hres].
Defined.

(** ** The deduplication of the temporal check *)

Lemma dedup_keys_distinct (l : list Conflict) (st : TemporalState) :
  NoDup (map record_key (snd st)) ->
  (forall c, In c (snd st) ->
     exists k, record_key c = Some k /\ In k (fst st)) ->
  NoDup (map record_key (snd (fold_left dedup_step l st))).
Proof.
  revert st; induction l as [| c0 l IH]; intros st Hnd Hseen; cbn [fold_left].
  - exact Hnd.
  - apply IH; unfold dedup_step;
      destruct (record_key c0) as [k0 |] eqn:Hk0; try assumption;
      destruct (key_in k0 (fst st)) eqn:Hin; try assumption; cbn [fst snd].
    + rewrite map_app. apply NoDup_app; [exact Hnd | |].
      * cbn. constructor; [intros [] | constructor].
      * intros key Hkey [Heq | []]. cbn in Heq.
        apply in_map_iff in Hkey. destruct Hkey as (c & Hc & Hcin).
        destruct (Hseen c Hcin) as (k & Hk & Hks).
        assert (k = k0) by congruence. subst k.
        apply key_in_spec in Hks. congruence.
    + intros c Hc. apply in_app_or in Hc. destruct Hc as [Hc | [<- | []]].
      * destruct (Hseen c Hc) as (k & Hk & Hks).
        exists k. split; [exact Hk | right; exact Hks].
      * exists k0. split; [exact Hk0 | left; reflexivity].
Qed.

(** X9: no two records of one run of the temporal check have the same
    deduplication key: the mission positions rounded to two decimals
    and the instants rounded to two decimals are pairwise different. *)
Theorem temporal_keys_distinct (mission : Mission) (schedule : Schedule)
    (tw : TimeWindow) (B : R) (l : list Conflict) :
  check_temporal_conflict mission schedule tw B = Some l ->
  NoDup (map record_key l).
Proof.
  rewrite temporal_all_pairs.
  destruct (py_min_of _) as [lo |]; [| discriminate].
  destruct (py_max_of _) as [hi |]; [| discriminate].
  remember (sample_instants tw lo hi) as ts eqn:Hts.
  destruct (_ || _); intros H; injection H as Hl; subst l.
  - constructor.
  - apply dedup_keys_distinct.
    + constructor.
    + intros c [].
Qed.

Lemma temporal_keys_distinct_witness :
  NoDup (map record_key [temporal_record near_far_other 0 (0, 0, 0) 8]).
Proof.
  apply (temporal_keys_distinct hover_mission near_far_other (mkTw 0 0) 10).
  rewrite hover_temporal by lra. rewrite Rltb_true by lra. reflexivity.
Defined.

(** ** [check_mission_safety] over several schedules *)

Lemma combine_app_same {X Y : Type} (l1 l2 : list X) (m1 m2 : list Y) :
  List.length l1 = List.length m1 ->
  combine (l1 ++ l2) (m1 ++ m2) = combine l1 m1 ++ combine l2 m2.
Proof.
  revert m1; induction l1 as [| x l1 IH]; intros [| y m1] Hlen;
    cbn in Hlen; try discriminate; cbn [app combine].
  - reflexivity.
  - rewrite IH by lia. reflexivity.
Qed.

(** X11: checking a concatenated schedule list gives the details of
    the first part followed by the details of the second, and reports
    "conflict detected" exactly when one of the two parts does: each
    schedule is judged on its own. *)
Theorem check_mission_safety_app (mission : Mission)
    (schedules1 schedules2 : list Schedule) (B : R) (res1 res2 : SafetyResult) :
  check_mission_safety mission schedules1 B = Some res1 ->
  check_mission_safety mission schedules2 B = Some res2 ->
  exists res,
    check_mission_safety mission (schedules1 ++ schedules2) B = Some res /\
    details res = details res1 ++ details res2 /\
    (status res = "conflict detected"%string <->
     status res1 = "conflict detected"%string \/
     status res2 = "conflict detected"%string).
Proof.
  intros H1 H2.
  apply safety_inversion in H1, H2.
  destruct H1 as (per1 & Hper1 & Hd1 & Hs1), H2 as (per2 & Hper2 & Hd2 & Hs2).
  pose proof (Forall2_app Hper1 Hper2) as Hper.
  eexists. split; [apply (safety_result _ _ _ _ Hper) |].
  cbn [status details].
  rewrite combine_app_same by (apply (Forall2_length Hper1)).
  rewrite flat_map_app, <- Hd1, <- Hd2.
  split; [reflexivity |].
  rewrite Hs1, Hs2.
  destruct (details res1) as [| c1 l1]; cbn [app].
  - destruct (details res2); split.
    + congruence.
    + intros [H | H]; exfalso; apply H; reflexivity.
    + intros _. right. discriminate.
    + intros _. reflexivity.
  - split; [intros _; left; discriminate | intros _; reflexivity].
Qed.

Lemma check_mission_safety_app_witness :
  exists res1 res2 res,
    check_mission_safety scenario_mission [scenario_other] 10 = Some res1 /\
    check_mission_safety scenario_mission [night_other] 10 = Some res2 /\
    check_mission_safety scenario_mission ([scenario_other] ++ [night_other]) 10
      = Some res /\
    details res = details res1 ++ details res2.
Proof.
  destruct (safety_defined scenario_mission [scenario_other] 10) as [res1 H1];
    [constructor; [discriminate | constructor] |].
  destruct (safety_defined scenario_mission [night_other] 10) as [res2 H2];
    [constructor; [discriminate | constructor] |].
  destruct (check_mission_safety_app scenario_mission [scenario_other]
              [night_other] 10 res1 res2 H1 H2) as (res & Hres & Hd & _).
  exists res1, res2, res. auto.
Defined.

Lemma safety_fold_empty_raises (mission : Mission) (B : R)
    (schedules : list Schedule) (acc : option (list Conflict)) :
  Exists (fun s => sched_waypoints s = []) schedules ->
  fold_left (safety_step mission B) schedules acc = None.
Proof.
  intros H; revert acc.
  induction H as [s ss Hw | s ss _ IH]; intros acc; cbn [fold_left].
  - replace (safety_step mission B acc s) with (@None (list Conflict));
      [apply safety_fold_none |].
    unfold safety_step. destruct acc; [| reflexivity].
    unfold check_spatial_conflict. rewrite Hw. reflexivity.
  - apply IH.
Qed.

(** X12: [check_mission_safety] raises when one of the schedules has
    an empty waypoint list, wherever the schedule stands in the list:
    the records of the schedules before it are not returned. *)
Theorem check_mission_safety_raises (mission : Mission)
    (schedules : list Schedule) (B : R) :
  Exists (fun s => sched_waypoints s = []) schedules ->
  check_mission_safety mission schedules B = None.
Proof.
  intros H. unfold check_mission_safety.
  rewrite (safety_fold_empty_raises mission B schedules (Some []) H).
  reflexivity.
Qed.

Lemma check_mission_safety_raises_witness :
  check_mission_safety scenario_mission
    [scenario_other; mkSchedule (Some "empty"%string) []] 50 = None.
Proof.
  apply (check_mission_safety_raises scenario_mission
           [scenario_other; mkSchedule (Some "empty"%string) []] 50).
  apply Exists_cons_tl, Exists_cons_hd. reflexivity.
Defined.

(** * The loader *)

Lemma bind_ok {A B : Type} (c : result A) (k : A -> result B) (b : B) :
  bind c k = Ok b <-> exists a, c = Ok a /\ k a = Ok b.
Proof.
  destruct c as [a | e]; cbn [bind]; split.
  - intros H. exists a. auto.
  - intros (a' & Ha & Hk). injection Ha as ->. exact Hk.
  - discriminate.
  - intros (a' & Ha & _). discriminate.
Qed.

Lemma missing_or_not_ok (is_instance : json -> bool) (v : json) (key : string) :
  missing_or_not is_instance v key = Ok false <->
  exists members x,
    v = JObj members /\ dict_get members key = Some x /\ is_instance x = true.
Proof.
  unfold missing_or_not. split.
  - destruct v as [| b | n | s | items | members];
      cbn [py_contains py_getitem bind]; try discriminate.
    + destruct (is_substring key s); cbn [negb]; discriminate.
    + destruct (existsb _ items); cbn [negb]; discriminate.
    + destruct (dict_get members key) as [x |] eqn:Hget; cbn [negb bind];
        [| discriminate].
      intros H. injection H as H. apply negb_false_iff in H.
      exists members, x. auto.
  - intros (members & x & -> & Hget & Hx).
    cbn [py_contains py_getitem bind]. rewrite Hget. cbn [negb bind].
    rewrite Hx. reflexivity.
Qed.

Lemma check_fields_ok (msg : string -> string) (wp : json)
    (fields : list string) :
  check_fields msg wp fields = Ok tt <->
  Forall (fun field =>
            exists members x,
              wp = JObj members /\ dict_get members field = Some x /\
              is_numeric x = true) fields.
Proof.
  induction fields as [| field rest IH]; cbn [check_fields].
  - split; [constructor | reflexivity].
  - rewrite bind_ok. split.
    + intros ([|] & Hbad & Hrest); [discriminate |].
      constructor; [apply missing_or_not_ok; exact Hbad | apply IH; exact Hrest].
    + intros H. inversion H as [| ? ? Hhd Htl]; subst.
      exists false. split; [apply missing_or_not_ok; exact Hhd | apply IH; exact Htl].
Qed.

Lemma check_fields_valid (msg : string -> string) (wp : json) :
  check_fields msg wp required_fields = Ok tt <-> valid_waypoint wp.
Proof.
  rewrite check_fields_ok. unfold required_fields, valid_waypoint, numeric_field.
  split.
  - intros H.
    inversion H as [| ? ? (m & x & Hwp & Hx) H1]; subst.
    inversion H1 as [| ? ? (m1 & y & Hwp1 & Hy) H2]; subst.
    inversion H2 as [| ? ? (m2 & z & Hwp2 & Hz) H3]; subst.
    inversion H3 as [| ? ? (m3 & t & Hwp3 & Ht) _]; subst.
    injection Hwp1 as <-. injection Hwp2 as <-. injection Hwp3 as <-.
    exists m. split; [reflexivity |]. eauto 10.
  - intros (m & -> & (x & Hx) & (y & Hy) & (z & Hz) & (t & Ht)).
    repeat constructor; eexists; eexists; (split; [reflexivity |]); eassumption.
Qed.

Lemma check_waypoints_ok (msg : string -> string) (wps : list json) :
  check_waypoints msg wps = Ok tt <-> Forall valid_waypoint wps.
Proof.
  induction wps as [| wp rest IH]; cbn [check_waypoints].
  - split; [constructor | reflexivity].
  - rewrite bind_ok. split.
    + intros ([] & Hwp & Hrest).
      constructor; [apply (check_fields_valid msg); exact Hwp | apply IH; exact Hrest].
    + intros H. inversion H as [| ? ? Hhd Htl]; subst.
      exists tt. split; [apply check_fields_valid; exact Hhd | apply IH; exact Htl].
Qed.

Lemma check_schedule_ok (schedule : json) :
  check_schedule schedule = Ok tt <-> valid_schedule schedule.
Proof.
  unfold check_schedule, valid_schedule. rewrite bind_ok. split.
  - intros ([|] & Hid & Hrest); [discriminate |].
    apply missing_or_not_ok in Hid. destruct Hid as (members & x & -> & Hget & Hx).
    destruct x as [| | | id | |]; try discriminate.
    apply bind_ok in Hrest. destruct Hrest as ([|] & Hw & Hrest); [discriminate |].
    apply missing_or_not_ok in Hw. destruct Hw as (m' & w & Heq & Hgetw & Hw).
    injection Heq as <-.
    destruct w as [| | | | wps |]; try discriminate.
    cbn [py_getitem bind] in Hrest. rewrite Hgetw in Hrest.
    destruct wps as [| wp wps]; [discriminate |].
    apply check_waypoints_ok in Hrest.
    exists members, id, (wp :: wps). repeat split; try assumption. discriminate.
  - intros (members & id & wps & -> & Hid & Hw & Hne & Hall).
    exists false. split.
    + apply missing_or_not_ok. exists members, (JStr id). auto.
    + apply bind_ok. exists false. split.
      * apply missing_or_not_ok. exists members, (JArr wps). auto.
      * cbn [py_getitem bind]. rewrite Hw.
        destruct wps as [| wp wps]; [congruence |].
        apply check_waypoints_ok. exact Hall.
Qed.

Lemma check_schedules_ok (schedules : list json) :
  check_schedules schedules = Ok tt <-> Forall valid_schedule schedules.
Proof.
  induction schedules as [| s rest IH]; cbn [check_schedules].
  - split; [constructor | reflexivity].
  - rewrite bind_ok. split.
    + intros ([] & Hs & Hrest).
      constructor; [apply check_schedule_ok; exact Hs | apply IH; exact Hrest].
    + intros H. inversion H as [| ? ? Hhd Htl]; subst.
      exists tt. split; [apply check_schedule_ok; exact Hhd | apply IH; exact Htl].
Qed.

Lemma is_expected_spec (v : json) :
  is_expected v = true <->
  exists s, v = JStr s /\
            (s = "clear"%string \/ s = "conflict detected"%string).
Proof.
  split.
  - destruct v as [| | | s | |]; try discriminate. cbn [is_expected].
    intros H. apply orb_true_iff in H. rewrite !String.eqb_eq in H. eauto.
  - intros (s & -> & H). cbn [is_expected].
    apply orb_true_iff. rewrite !String.eqb_eq. exact H.
Qed.

Lemma check_scenario_ok (entry : string * json) :
  check_scenario entry = Ok tt <-> valid_scenario (snd entry).
Proof.
  destruct entry as [scenario_id scenario]. cbn [snd].
  unfold check_scenario, valid_scenario. split.
  - destruct (is_dict scenario); cbn [negb]; [| discriminate].
    intros H. apply bind_ok in H. destruct H as ([|] & Hid & Hrest); [discriminate |].
    apply missing_or_not_ok in Hid. destruct Hid as (members & x & -> & Hget & Hx).
    destruct x as [| | | id | |]; try discriminate.
    apply bind_ok in Hrest. destruct Hrest as ([|] & He & Hfin); [discriminate |].
    apply missing_or_not_ok in He. destruct He as (m' & e & Heq & Hgete & He).
    injection Heq as <-.
    apply is_expected_spec in He. destruct He as (s & -> & Hs).
    exists members, id, s. auto.
  - intros (members & id & expected & -> & Hid & He & Hs).
    cbn [is_dict negb]. apply bind_ok. exists false. split.
    + apply missing_or_not_ok. exists members, (JStr id). auto.
    + apply bind_ok. exists false. split; [| reflexivity].
      apply missing_or_not_ok. exists members, (JStr expected).
      repeat split; try assumption. apply is_expected_spec. eauto.
Qed.

Lemma check_scenarios_ok (entries : list (string * json)) :
  check_scenarios entries = Ok tt <->
  Forall (fun entry => valid_scenario (snd entry)) entries.
Proof.
  induction entries as [| e rest IH]; cbn [check_scenarios].
  - split; [constructor | reflexivity].
  - rewrite bind_ok. split.
    + intros ([] & He & Hrest).
      constructor; [apply check_scenario_ok; exact He | apply IH; exact Hrest].
    + intros H. inversion H as [| ? ? Hhd Htl]; subst.
      exists tt. split; [apply check_scenario_ok; exact Hhd | apply IH; exact Htl].
Qed.

Lemma validate_accepted (data : json) :
  validate_test_data data = Ok data -> accepted data.
Proof.
  intros H. unfold validate_test_data in H.
  destruct data as [| | | | | root]; cbn [is_dict negb] in H; try discriminate.
  cbn [py_contains bind py_getitem] in H.
  destruct (dict_get root "mission") as [mv |] eqn:Hm; cbn [negb bind] in H;
    [| discriminate].
  destruct mv as [| | | | | mission]; cbn [is_dict negb] in H; try discriminate.
  apply bind_ok in H. destruct H as ([|] & Hw & H); [discriminate |].
  apply missing_or_not_ok in Hw. destruct Hw as (m' & w & Heq & Hgw & Hw).
  injection Heq as <-. destruct w as [| | | | wps |]; try discriminate.
  cbn [py_getitem bind] in H. rewrite Hgw in H. cbn [bind] in H.
  destruct wps as [| wp0 wps]; [discriminate |].
  apply bind_ok in H. destruct H as ([|] & Htw & H); [discriminate |].
  apply missing_or_not_ok in Htw. destruct Htw as (m' & twv & Heq & Hgtw & Htw).
  injection Heq as <-. destruct twv as [| | | | | tw]; try discriminate.
  cbn [py_getitem bind] in H. rewrite Hgtw in H. cbn [bind py_contains] in H.
  destruct (dict_get tw "start") as [sv |] eqn:Hs; cbn [bind andb negb] in H;
    [| discriminate].
  destruct (dict_get tw "end") as [ev |] eqn:He; cbn [bind andb negb] in H;
    [| discriminate].
  apply bind_ok in H. destruct H as ([|] & Hsch & H); [discriminate |].
  apply missing_or_not_ok in Hsch. destruct Hsch as (r' & sv' & Heq & Hgs & Hsl).
  injection Heq as <-. destruct sv' as [| | | | schedules |]; try discriminate.
  apply bind_ok in H. destruct H as ([] & Hwps & H).
  apply check_waypoints_ok in Hwps.
  rewrite Hgs in H. cbn [bind] in H.
  apply bind_ok in H. destruct H as ([] & Hss & H).
  apply check_schedules_ok in Hss.
  exists root, mission, (wp0 :: wps), tw, schedules.
  repeat (split; [first [reflexivity | assumption | discriminate | congruence] |]).
  destruct (dict_get root "test_scenarios") as [tests |] eqn:Ht;
    cbn [bind negb] in H; [| exact I].
  destruct tests as [| | | | | members]; try discriminate.
  apply bind_ok in H. destruct H as ([] & Hsc & _).
  apply check_scenarios_ok in Hsc. exists members. auto.
Qed.

Lemma accepted_validates (data : json) :
  accepted data -> validate_test_data data = Ok data.
Proof.
  intros (root & mission & wps & tw & schedules & -> & Hm & Hw & Hne & Hwps
          & Htw & Hs & He & Hsch & Hss & Hts).
  unfold validate_test_data. cbn [is_dict negb py_contains py_getitem bind].
  rewrite Hm. cbn [negb bind is_dict].
  assert (H1 : missing_or_not is_list (JObj mission) "waypoints" = Ok false)
    by (apply missing_or_not_ok; exists mission, (JArr wps); auto).
  rewrite H1. cbn [bind py_getitem]. rewrite Hw. cbn [bind].
  destruct wps as [| wp0 wps]; [congruence |].
  assert (H2 : missing_or_not is_dict (JObj mission) "time_window" = Ok false)
    by (apply missing_or_not_ok; exists mission, (JObj tw); auto).
  rewrite H2. cbn [bind py_getitem]. rewrite Htw. cbn [bind py_contains].
  destruct (dict_get tw "start"); [| congruence].
  destruct (dict_get tw "end"); [| congruence].
  cbn [bind andb negb].
  assert (H3 : missing_or_not is_list (JObj root) "schedules" = Ok false)
    by (apply missing_or_not_ok; exists root, (JArr schedules); auto).
  rewrite H3. cbn [bind].
  apply (check_waypoints_ok mission_waypoint_msg) in Hwps. rewrite Hwps.
  cbn [bind]. rewrite Hsch. cbn [bind].
  apply check_schedules_ok in Hss. rewrite Hss. cbn [bind].
  destruct (dict_get root "test_scenarios") as [tests |]; cbn [bind negb];
    [| reflexivity].
  destruct Hts as (members & -> & Hsc).
  apply check_scenarios_ok in Hsc. rewrite Hsc. reflexivity.
Qed.

Lemma validate_returns_input (data d : json) :
  validate_test_data data = Ok d -> d = data.
Proof.
  unfold validate_test_data.
  repeat match goal with
         | |- context [match ?x with _ => _ end] => destruct x
         | |- context [if ?b then _ else _] => destruct b
         | |- bind ?c _ = _ -> _ => destruct c; cbn [bind]
         end; intros H; try discriminate; injection H as <-; reflexivity.
Qed.

(** X13: the validation returns its input unchanged, and it accepts a
    parsed value exactly when the root is an object whose mission is an
    object with a non-empty list of waypoint objects (each with x, y,
    z and time of type int, float or bool) and a time-window object
    having the keys start and end (of any type), whose schedules are a
    list of objects with a string drone_id and a non-empty list of such
    waypoints, and whose test_scenarios, if present, are an object of
    objects with a string drone_id and an expected that is "clear" or
    "conflict detected"; a scenario needs no description. *)
Theorem validation_accepts_exactly (data : json) :
  (forall d, validate_test_data data = Ok d -> d = data) /\
  (validate_test_data data = Ok data <-> accepted data).
Proof.
  split.
  - intros d. apply validate_returns_input.
  - split; [apply validate_accepted | apply accepted_validates].
Qed.

Lemma validation_accepts_exactly_witness :
  validate_test_data sample_data = Ok sample_data /\ accepted sample_data.
Proof.
  assert (H : validate_test_data sample_data = Ok sample_data) by reflexivity.
  split; [exact H |].
  exact (proj1 (proj2 (validation_accepts_exactly sample_data)) H).
Defined.

(** X15: when everything checked before the waypoints is well-formed
    and the first mission waypoint is null, a boolean or a number, the
    validation raises TypeError (from [field not in wp]) and not the
    ValueError that the main program catches. *)
Theorem scalar_waypoint_raises_type_error
    (root mission tw : list (string * json)) (wp : json)
    (wps schedules : list json) :
  dict_get root "mission" = Some (JObj mission) ->
  dict_get mission "waypoints" = Some (JArr (wp :: wps)) ->
  dict_get mission "time_window" = Some (JObj tw) ->
  dict_get tw "start" <> None -> dict_get tw "end" <> None ->
  dict_get root "schedules" = Some (JArr schedules) ->
  not_iterable wp ->
  validate_test_data (JObj root) = Raise TypeError.
Proof.
  intros Hm Hw Htw Hs He Hsch Hwp.
  unfold validate_test_data. cbn [is_dict negb py_contains py_getitem bind].
  rewrite Hm. cbn [negb bind is_dict].
  assert (H1 : missing_or_not is_list (JObj mission) "waypoints" = Ok false)
    by (apply missing_or_not_ok; exists mission, (JArr (wp :: wps)); auto).
  rewrite H1. cbn [bind py_getitem]. rewrite Hw. cbn [bind].
  assert (H2 : missing_or_not is_dict (JObj mission) "time_window" = Ok false)
    by (apply missing_or_not_ok; exists mission, (JObj tw); auto).
  rewrite H2. cbn [bind py_getitem]. rewrite Htw. cbn [bind py_contains].
  destruct (dict_get tw "start"); [| congruence].
  destruct (dict_get tw "end"); [| congruence].
  cbn [bind andb negb].
  assert (H3 : missing_or_not is_list (JObj root) "schedules" = Ok false)
    by (apply missing_or_not_ok; exists root, (JArr schedules); auto).
  rewrite H3. cbn [bind check_waypoints].
  destruct wp; try contradiction; reflexivity.
Qed.

Lemma scalar_waypoint_raises_type_error_witness :
  validate_test_data null_waypoint_data = Raise TypeError.
Proof.
  apply (scalar_waypoint_raises_type_error _
           [("waypoints", JArr [JNull]);
            ("time_window",
             JObj [("start", JNum (JInt 0)); ("end", JNum (JInt 10))])]%string
           [("start", JNum (JInt 0)); ("end", JNum (JInt 10))]%string
           JNull [] []);
    try reflexivity; try discriminate; exact I.
Defined.

(** * The main program's command line *)

Lemma data_file_arg_spec (arg : string) :
  is_data_file_arg arg = true ->
  endswith arg ".json" = true /\ startswith arg "-" = false.
Proof.
  unfold is_data_file_arg. intros H. apply andb_true_iff in H.
  destruct H as [He Hs]. apply negb_true_iff in Hs. auto.
Qed.

Lemma filter_skips {X : Type} (f : X -> bool) (skipped : list X) (x : X)
    (rest : list X) :
  Forall (fun a => f a = false) skipped -> f x = true ->
  filter f (skipped ++ x :: rest) = x :: filter f rest.
Proof.
  intros Hs Hx. induction Hs as [| a skipped Ha _ IH]; cbn [app filter].
  - rewrite Hx. reflexivity.
  - rewrite Ha. exact IH.
Qed.

(** X16: the data file chosen always ends with ".json" and never
    starts with "-"; it is the default "test_data.json" or one of the
    arguments after the program name; under Jupyter it is the default
    whatever the arguments; otherwise it is the first argument that
    ends with ".json" and does not start with "-". *)
Theorem select_data_file_choice (jupyter : bool) (argv : list string) :
  let data_file := fst (select_data_file jupyter argv) in
  endswith data_file ".json" = true /\
  startswith data_file "-" = false /\
  (data_file = default_data_file \/ In data_file (tl argv)) /\
  (jupyter = true -> data_file = default_data_file) /\
  (forall skipped arg rest,
     jupyter = false ->
     tl argv = skipped ++ arg :: rest ->
     Forall (fun a => is_data_file_arg a = false) skipped ->
     is_data_file_arg arg = true ->
     data_file = arg).
Proof.
  cbv zeta. unfold select_data_file.
  destruct jupyter.
  - cbn [fst]. repeat split; auto. intros; discriminate.
  - destruct (2 <=? List.length argv)%nat eqn:Hlen.
    + destruct (filter is_data_file_arg (tl argv)) as [| f others] eqn:Hf;
        cbn [fst].
      * repeat split; auto; try discriminate.
        intros skipped arg rest _ Htl Hs Ha.
        rewrite Htl, (filter_skips _ _ _ _ Hs Ha) in Hf. discriminate.
      * assert (Hin : In f (filter is_data_file_arg (tl argv)))
          by (rewrite Hf; left; reflexivity).
        apply filter_In in Hin. destruct Hin as [Hin Hvalid].
        apply data_file_arg_spec in Hvalid. destruct Hvalid as [He Hs].
        repeat split; auto; try discriminate.
        intros skipped arg rest _ Htl Hsk Ha.
        rewrite Htl, (filter_skips _ _ _ _ Hsk Ha) in Hf.
        injection Hf as <- _. reflexivity.
    + cbn [fst]. repeat split; auto; try discriminate.
      intros skipped arg rest _ Htl _ _.
      apply Nat.leb_gt in Hlen.
      destruct argv as [| a0 argv]; cbn [tl] in Htl.
      * destruct skipped; discriminate.
      * rewrite Htl in Hlen. cbn [List.length] in Hlen.
        rewrite length_app in Hlen. cbn [List.length] in Hlen. lia.
Qed.

Lemma select_data_file_choice_witness :
  fst (select_data_file false
         ["prog.py"; "-f"; "notes.txt"; "a.json"; "b.json"]%string)
  = "a.json"%string /\
  fst (select_data_file true ["prog.py"; "a.json"]%string) = default_data_file.
Proof.
  split.
  - apply (proj2 (proj2 (proj2 (proj2
             (select_data_file_choice false
                ["prog.py"; "-f"; "notes.txt"; "a.json"; "b.json"]%string))))
             ["-f"; "notes.txt"]%string "a.json"%string ["b.json"]%string);
      try reflexivity.
    repeat constructor.
  - apply (proj1 (proj2 (proj2 (proj2
             (select_data_file_choice true ["prog.py"; "a.json"]%string))))).
    reflexivity.
Defined.

(** * The test runner *)

Lemma run_scenario_needs_description (mission : Mission)
    (schedules : list Schedule) (id : string) (sc : Scenario) (s : Schedule) :
  find_schedule schedules (sc_drone_id sc) = Ok (Some s) ->
  sc_description sc = None ->
  exists e, run_scenario mission schedules (id, sc) = Raise e.
Proof.
  intros Hfound Hd. unfold run_scenario. rewrite Hfound. cbn [bind].
  destruct (check_mission_safety mission [s] default_safety_buffer);
    [rewrite Hd |]; eauto.
Qed.

(** X18: a scenario without a description, which the validation
    accepts, makes [run_tests] end with an exception when its drone is
    scheduled, whatever the other scenarios are; when it is the first
    scenario nothing is printed at all. *)
Theorem run_tests_needs_description (mission : Mission)
    (schedules : list Schedule) (scenarios : list (string * Scenario))
    (id : string) (sc : Scenario) (s : Schedule) :
  In (id, sc) scenarios ->
  find_schedule schedules (sc_drone_id sc) = Ok (Some s) ->
  sc_description sc = None ->
  (exists e, snd (run_tests mission schedules scenarios) = Some e) /\
  (forall rest,
     exists e, run_tests mission schedules ((id, sc) :: rest) = ([], Some e)).
Proof.
  intros Hin Hfound Hd.
  destruct (run_scenario_needs_description mission schedules id sc s Hfound Hd)
    as [e He].
  split.
  - induction scenarios as [| entry rest IH]; [destruct Hin |].
    cbn [run_tests].
    destruct (run_scenario mission schedules entry) as [lines | e'] eqn:Hrun.
    + destruct Hin as [-> | Hin]; [congruence |].
      destruct (IH Hin) as [e'' He''].
      destruct (run_tests mission schedules rest) as [more e0].
      cbn [snd] in *. eauto.
    + cbn [snd]. eauto.
  - intros rest. exists e. cbn [run_tests]. rewrite He. reflexivity.
Qed.

Lemma run_tests_needs_description_witness :
  exists e,
    run_tests scenario_mission [scenario_other]
      [("s1"%string, mkScenario "drone_1" "conflict detected" None)] =
    ([], Some e).
Proof.
  apply (proj2 (run_tests_needs_description scenario_mission [scenario_other]
                  [("s1"%string, mkScenario "drone_1" "conflict detected" None)]
                  "s1" (mkScenario "drone_1" "conflict detected" None)
                  scenario_other (or_introl eq_refl) eq_refl eq_refl)).
Defined.

(** * The animation frames *)






(** ** Where the primary drone is drawn *)

Lemma wp_at_in (wps : list WaypointDict) (i : nat) :
  (i < List.length wps)%nat -> In (wp_at wps i) wps.
Proof. intros H. unfold wp_at. apply nth_In. exact H. Qed.

Lemma primary_marker_from_none (mw : list WaypointDict) (t : R)
    (indices : list nat) :
  (forall i, In i indices ->
     contains_time mw i t = false /\ Rltb t (wp_time (wp_at mw 0)) = false) ->
  primary_marker_from mw t indices = None.
Proof.
  induction indices as [| i rest IH]; intros H; cbn [primary_marker_from].
  - reflexivity.
  - destruct (H i (or_introl eq_refl)) as [Hc Hb]. rewrite Hc, Hb.
    apply IH. intros k Hk. apply H. right; exact Hk.
Qed.

(** X21: at a time after every waypoint time of the mission no primary
    drone marker is drawn (the drone disappears after its last
    waypoint), and at a time before every waypoint time of a mission
    with at least two waypoints it is drawn at the first waypoint. *)
Theorem primary_marker_outside (mission : Mission) (t : R) :
  (Forall (fun wp => wp_time wp < t) (waypoints mission) ->
   primary_marker mission t = None) /\
  (Forall (fun wp => t < wp_time wp) (waypoints mission) ->
   (2 <= List.length (waypoints mission))%nat ->
   primary_marker mission t = Some (position (wp_at (waypoints mission) 0))).
Proof.
  unfold primary_marker. split.
  - intros Hall. rewrite Forall_forall in Hall.
    apply primary_marker_from_none. intros i Hi.
    apply segment_index_bound in Hi.
    assert (H1 : wp_time (wp_at (waypoints mission) (S i)) < t)
      by (apply Hall, wp_at_in; lia).
    assert (H0 : wp_time (wp_at (waypoints mission) 0) < t)
      by (apply Hall, wp_at_in; lia).
    split.
    + unfold contains_time. rewrite (Rleb_false t) by lra. apply andb_false_r.
    + apply Rltb_false. lra.
  - intros Hall Hlen. rewrite Forall_forall in Hall.
    unfold segment_indices.
    destruct (List.length (waypoints mission) - 1)%nat as [| n] eqn:Hn; [lia |].
    cbn [seq primary_marker_from].
    assert (H0 : t < wp_time (wp_at (waypoints mission) 0))
      by (apply Hall, wp_at_in; lia).
    unfold contains_time. rewrite (Rleb_false _ t) by lra. cbn [andb].
    rewrite Rltb_true by exact H0. reflexivity.
Qed.

Lemma primary_marker_outside_witness :
  primary_marker scenario_mission 11 = None /\
  primary_marker scenario_mission (-1) =
    Some (position (wp_at (waypoints scenario_mission) 0)).
Proof.
  split.
  - apply (proj1 (primary_marker_outside scenario_mission 11)).
    repeat constructor; cbn; lra.
  - apply (proj2 (primary_marker_outside scenario_mission (-1))).
    + repeat constructor; cbn; lra.
    + cbn. lia.
Defined.
